(** * Market aggregation core: adapters, cache, live feed, matcher, spread radar

    A shallow embedding of [server/api-clients.ts] and of the live-feed module
    it imports as [./polymarket-ws], followed by the properties of the
    market-aggregation specification that were checked against them.

    Modelling conventions.
    - A JavaScript [number] that reaches a [Market] record is a finite double;
      it is modelled by an exact rational [Q].  A number read from a provider
      payload may be absent or unparsable, which JavaScript turns into [NaN]:
      such a raw number is an [option Q], [None] standing for [NaN].
    - Arithmetic is exact: a sum, difference, product or quotient is not
      rounded to the 53 bits of a double.  Comparisons, [Math.max],
      [Math.min], [Math.abs] and [Math.round] are exact in the program too.
      The program's results can differ from the exact ones in the last
      place: [1 - p] is the double [1] for a price [p] of at most [2^-54],
      and [Math.abs(0.12 - 0.10) * 100] is just below [2].  The properties
      of the price patch and of the spread radar are therefore stated in a
      form that holds with and without that rounding: price bounds that
      the rounded complement meets as well ([within_unit]), no claim on
      which side of a threshold a computed spread falls, and concrete
      spreads only where the doubles give the same value.
    - Titles are ASCII strings; [\s] is the ASCII white space class.
    - [Map<string, T>] is a [gmap string T], [Set<string>] a [gset string].
    - Module-level [let] variables become fields of an explicit state record
      that every operation takes and returns.
    - [Array.prototype.sort] is the stable sort that ECMAScript requires; it is
      modelled by a stable insertion sort driven by the same comparator.
    - Records are values.  In the program the array [cachedMarkets] and the
      map [marketCache] can hold the same record objects, so that a price
      patch shows through both; nothing below reads a patched record through
      [cachedMarkets]. *)

From Stdlib Require Import QArith Qabs Qround Lqa Sorting.Sorted.
From Stdlib Require Import Strings.Ascii Strings.String DecimalString.
From stdpp Require Import gmap strings list.

Local Open Scope Q_scope.

(** ** JavaScript numbers *)

Module JsNum.

(** [x < y] and [x > y] on finite numbers. *)
Definition ltb (x y : Q) : bool := negb (Qle_bool y x).
Definition gtb (x y : Q) : bool := ltb y x.

(** [Math.max] and [Math.min] on two finite numbers. *)
Definition max (x y : Q) : Q := if Qle_bool x y then y else x.
Definition min (x y : Q) : Q := if Qle_bool x y then x else y.

(** [Math.round]: the nearest integer, halves going up. *)
Definition round (x : Q) : Q := inject_Z (Qfloor (x + (1 # 2))).

(** A raw number, [None] being [NaN]. *)
Definition raw := option Q.

Definition add (x y : raw) : raw :=
  match x, y with Some a, Some b => Some (a + b) | _, _ => None end.

(** Division by a non-zero constant. *)
Definition div_const (x : raw) (k : Q) : raw :=
  match x with Some a => Some (a / k) | None => None end.

(** [x || d] for a number: [NaN] and [0] are falsy. *)
Definition or_else (x : raw) (d : Q) : Q :=
  match x with
  | Some a => if Qeq_bool a 0 then d else a
  | None => d
  end.

(** Truthiness of a number, and [isNaN]. *)
Definition truthy (x : raw) : bool :=
  match x with Some a => negb (Qeq_bool a 0) | None => false end.
Definition isNaN (x : raw) : bool :=
  match x with Some _ => false | None => true end.

(** The clamp [Math.max(0.01, Math.min(0.99, v))] used by both adapters. *)
Definition clamp (v : Q) : Q := max 0.01 (min 0.99 v).

End JsNum.

(** ** JavaScript strings (ASCII) *)

Module JsStr.

Definition is_upper (c : ascii) : bool :=
  let n := nat_of_ascii c in (65 <=? n)%nat && (n <=? 90)%nat.
Definition is_lower (c : ascii) : bool :=
  let n := nat_of_ascii c in (97 <=? n)%nat && (n <=? 122)%nat.
Definition is_digit (c : ascii) : bool :=
  let n := nat_of_ascii c in (48 <=? n)%nat && (n <=? 57)%nat.

(** The class [\s]: tab, line feed, vertical tab, form feed, carriage
    return and space. *)
Definition is_space (c : ascii) : bool :=
  let n := nat_of_ascii c in ((9 <=? n)%nat && (n <=? 13)%nat) || (n =? 32)%nat.

Definition lower_char (c : ascii) : ascii :=
  if is_upper c then ascii_of_nat (nat_of_ascii c + 32) else c.

Definition toLowerCase (s : list ascii) : list ascii := List.map lower_char s.

(** [.replace(/[^a-z0-9\s]/g, "")] *)
Definition strip_other (s : list ascii) : list ascii :=
  List.filter (fun c => is_lower c || is_digit c || is_space c) s.

(** [.replace(/\s+/g, " ")]: every maximal run of white space becomes one
    space. *)
Fixpoint collapse_spaces (s : list ascii) : list ascii :=
  match s with
  | [] => []
  | c :: rest =>
      if is_space c then
        match rest with
        | c' :: _ => if is_space c' then collapse_spaces rest
                     else " "%char :: collapse_spaces rest
        | [] => [" "%char]
        end
      else c :: collapse_spaces rest
  end.

Fixpoint drop_spaces (s : list ascii) : list ascii :=
  match s with
  | c :: rest => if is_space c then drop_spaces rest else s
  | [] => []
  end.

(** [.trim()] *)
Definition trim (s : list ascii) : list ascii :=
  rev (drop_spaces (rev (drop_spaces s))).

(** [.split(" ")]: one piece more than there are spaces; the empty string
    yields the single piece [""]. *)
Fixpoint split_space_aux (cur : list ascii) (s : list ascii) : list string :=
  match s with
  | [] => [string_of_list_ascii (rev cur)]
  | c :: rest =>
      if Ascii.eqb c " "%char
      then string_of_list_ascii (rev cur) :: split_space_aux [] rest
      else split_space_aux (c :: cur) rest
  end.

Definition split_space (s : string) : list string :=
  split_space_aux [] (list_ascii_of_string s).

Definition lower (s : string) : string :=
  string_of_list_ascii (toLowerCase (list_ascii_of_string s)).

(** [s.includes(sub)] *)
Fixpoint includes (s sub : string) : bool :=
  String.prefix sub s ||
  match s with
  | EmptyString => false
  | String _ rest => includes rest sub
  end.

(** [s || d] for a string: the empty string is falsy. *)
Definition or_else (s d : string) : string :=
  match s with EmptyString => d | _ => s end.

(** Rendering of a non-negative integer inside a template literal. *)
Definition of_nat (n : nat) : string :=
  NilZero.string_of_uint (Nat.to_uint n).

End JsStr.

(** ** [shared/schema.ts] *)

Inductive Platform := polymarket | kalshi.

Inductive Category := trending | politics | crypto | sports | economy | tech.

Inductive Direction := polymarket_higher | kalshi_higher.

Inductive Confidence := high | medium | low.

Definition Platform_eqb (p q : Platform) : bool :=
  match p, q with
  | polymarket, polymarket | kalshi, kalshi => true
  | _, _ => false
  end.

Module Market.
Record t := mk {
  id : string;
  title : string;
  description : string;
  platform : Platform;
  category : Category;
  yesPrice : Q;
  noPrice : Q;
  volume : Q;
  resolutionDate : string
}.

(** Assignment to the two mutable price fields of a record. *)
Definition set_prices (m : t) (yes no : Q) : t :=
  mk (id m) (title m) (description m) (platform m) (category m)
     yes no (volume m) (resolutionDate m).
End Market.

Module SpreadOpportunity.
Record t := mk {
  id : string;
  title : string;
  polymarketId : option string;
  kalshiId : option string;
  polymarketYesPrice : option Q;
  kalshiYesPrice : option Q;
  spreadPercent : Q;
  spreadDirection : Direction;
  combinedVolume : Q;
  category : Category;
  resolutionDate : string;
  confidence : Confidence;
  detectedAt : string
}.
End SpreadOpportunity.

(** ** Exceptions

    A computation inside a [try] block either yields a value or throws. *)

Inductive result (A : Type) : Type :=
| Ok (a : A)
| Throw (msg : string).
Arguments Ok {A} a.
Arguments Throw {A} msg.

Definition bind {A B} (r : result A) (k : A -> result B) : result B :=
  match r with
  | Ok a => k a
  | Throw msg => Throw msg
  end.

Notation "'try!' x := r 'in' k" := (bind r (fun x => k))
  (at level 10, x name, r at level 100, k at level 200).

(** [try { body } catch (error) { return [] }] *)
Definition catch_empty {A} (r : result (list A)) : list A :=
  match r with
  | Ok l => l
  | Throw _ => []
  end.

(** ** [server/api-clients.ts]: the Kalshi adapter *)

(** A listing of the Kalshi payload.  A string field that is absent from the
    payload is the empty string here: [||] and [?.] treat both alike.  The
    bid and ask quotes are raw numbers. *)
Module KalshiMarket.
Record t := mk {
  ticker : string;
  title : string;
  subtitle : string;
  yes_bid : JsNum.raw;
  yes_ask : JsNum.raw;
  no_bid : JsNum.raw;
  no_ask : JsNum.raw;
  volume : JsNum.raw;
  close_time : string;
  status : string;
  category : string;
  event_ticker : string
}.
End KalshiMarket.

Definition mapKalshiCategory (market : KalshiMarket.t) : Category :=
  let cat := JsStr.lower (KalshiMarket.category market) in
  let title := JsStr.lower (KalshiMarket.title market) in
  if JsStr.includes cat "crypto" || JsStr.includes title "bitcoin"
     || JsStr.includes title "crypto" then crypto
  else if JsStr.includes cat "politic" || JsStr.includes cat "election"
     || JsStr.includes title "president" || JsStr.includes title "congress"
  then politics
  else if JsStr.includes cat "sport" || JsStr.includes title "super bowl"
     || JsStr.includes title "championship" then sports
  else if JsStr.includes cat "econ" || JsStr.includes cat "fed"
     || JsStr.includes title "inflation" || JsStr.includes title "interest rate"
  then economy
  else if JsStr.includes cat "tech" || JsStr.includes cat "science"
     || JsStr.includes title "ai" || JsStr.includes title "tesla" then tech
  else trending.

(** The body of the [.map] callback of [fetchKalshiMarkets]. *)
Definition kalshiToMarket (market : KalshiMarket.t) : Market.t :=
  let yesMid :=
    JsNum.div_const (JsNum.div_const (JsNum.add (KalshiMarket.yes_bid market) (KalshiMarket.yes_ask market)) 2) 100 in
  let noMid :=
    JsNum.div_const (JsNum.div_const (JsNum.add (KalshiMarket.no_bid market) (KalshiMarket.no_ask market)) 2) 100 in
  {| Market.id := "kl-" ++ KalshiMarket.ticker market;
     Market.title := JsStr.or_else (KalshiMarket.title market) "Untitled Market";
     Market.description := JsStr.or_else (KalshiMarket.subtitle market) "";
     Market.platform := kalshi;
     Market.category := mapKalshiCategory market;
     Market.yesPrice := JsNum.max 0.01 (JsNum.min 0.99 (JsNum.or_else yesMid 0.5));
     Market.noPrice := JsNum.max 0.01 (JsNum.min 0.99 (JsNum.or_else noMid 0.5));
     Market.volume := JsNum.or_else (KalshiMarket.volume market) 0;
     Market.resolutionDate := JsStr.or_else (KalshiMarket.close_time market) "" |}.

(** What [response.json()] can deliver: a rejection (the body is not JSON),
    a value whose [markets] member is not an array, or an array whose
    elements are listings or [null]. *)
Inductive KalshiBody :=
| BodyNotJson
| BodyNoMarkets
| BodyMarkets (markets : list (option KalshiMarket.t)).

(** What [fetch] can deliver: a rejection, or a response with its status
    code and body. *)
Inductive FetchOutcome :=
| NetworkFailure
| Response (code : nat) (body : KalshiBody).

(** [response.ok]: the status code is in the range 200 to 299. *)
Definition response_ok (code : nat) : bool :=
  (200 <=? code)%nat && (code <=? 299)%nat.

Definition status_is_open (m : KalshiMarket.t) : bool :=
  String.eqb (KalshiMarket.status m) "open" || String.eqb (KalshiMarket.status m) "active".

(** [data.markets.filter(m => m.status === "open" || m.status === "active")];
    reading [status] of a [null] element throws a [TypeError]. *)
Fixpoint filterOpen (markets : list (option KalshiMarket.t)) : result (list KalshiMarket.t) :=
  match markets with
  | [] => Ok []
  | None :: _ => Throw "TypeError"
  | Some m :: rest =>
      try! kept := filterOpen rest in
      Ok (if status_is_open m then m :: kept else kept)
  end.

(** The [try] block of [fetchKalshiMarkets]. *)
Definition fetchKalshiMarkets_try (outcome : FetchOutcome) : result (list Market.t) :=
  match outcome with
  | NetworkFailure => Throw "fetch failed"
  | Response code body =>
      if negb (response_ok code) then Throw ("Kalshi API error: " ++ JsStr.of_nat code)
      else
        match body with
        | BodyNotJson => Throw "SyntaxError"
        | BodyNoMarkets => Throw "TypeError"
        | BodyMarkets markets =>
            try! kept := filterOpen markets in
            Ok (List.map kalshiToMarket kept)
        end
  end.

Definition fetchKalshiMarkets (outcome : FetchOutcome) : list Market.t :=
  catch_empty (fetchKalshiMarkets_try outcome).

(** ** [server/api-clients.ts]: the cache *)

Definition mkMarket := Market.mk.

Definition fallbackMarkets : list Market.t := [
  mkMarket "pm-fallback-1" "Will the US Federal Reserve cut interest rates in Q1 2025?"
    "This market resolves YES if the Federal Reserve announces a federal funds rate cut during Q1 2025."
    polymarket economy 0.42 0.58 2450000 "2025-03-31";
  mkMarket "kl-fallback-1" "Will there be a government shutdown before March 2025?"
    "Resolves YES if a federal government shutdown occurs lasting at least 24 hours."
    kalshi politics 0.28 0.72 890000 "2025-03-01";
  mkMarket "pm-fallback-2" "Will Bitcoin reach $150,000 by end of 2025?"
    "Resolves YES if BTC/USD reaches $150,000 on any major exchange before December 31, 2025."
    polymarket crypto 0.35 0.65 5800000 "2025-12-31";
  mkMarket "kl-fallback-2" "Will the Kansas City Chiefs win Super Bowl LIX?"
    "Resolves YES if the Kansas City Chiefs win Super Bowl LIX."
    kalshi sports 0.22 0.78 4500000 "2025-02-09";
  mkMarket "pm-fallback-3" "Will OpenAI release GPT-5 in 2025?"
    "Resolves YES if OpenAI publicly releases a model called GPT-5 or equivalent."
    polymarket tech 0.65 0.35 4100000 "2025-12-31";
  mkMarket "kl-fallback-3" "Will US inflation fall below 2% in 2025?"
    "Resolves YES if the US CPI year-over-year reading falls below 2% at any point in 2025."
    kalshi economy 0.31 0.69 1890000 "2025-12-31"
].

(** The module-level variables of [api-clients.ts]. *)
Record ApiState := {
  cachedMarkets : list Market.t;
  lastFetchTime : Z;
  isLiveData : bool
}.

Definition CACHE_TTL : Z := 60000.

(** The state of a fresh process. *)
Definition initialApiState : ApiState :=
  {| cachedMarkets := fallbackMarkets; lastFetchTime := 0; isLiveData := false |}.

Definition is_empty {A} (l : list A) : bool :=
  match l with [] => true | _ => false end.

(** [fetchAllMarkets()] at time [now]; [polymarketMarkets] and
    [kalshiMarkets] are what the two adapters deliver when they are asked.
    Returns the new state and the returned list. *)
Definition fetchAllMarkets (now : Z) (polymarketMarkets kalshiMarkets : list Market.t)
    (st : ApiState) : ApiState * list Market.t :=
  if isLiveData st && negb (is_empty (cachedMarkets st))
     && (now - lastFetchTime st <? CACHE_TTL)%Z
  then (st, cachedMarkets st)
  else
    let allMarkets := polymarketMarkets ++ kalshiMarkets in
    if negb (is_empty allMarkets) then
      let st' := {| cachedMarkets := allMarkets; lastFetchTime := now; isLiveData := true |} in
      (st', cachedMarkets st')
    else if is_empty (cachedMarkets st) then
      let st' := {| cachedMarkets := fallbackMarkets;
                    lastFetchTime := lastFetchTime st;
                    isLiveData := isLiveData st |} in
      (st', cachedMarkets st')
    else (st, cachedMarkets st).

(** [getCachedMarkets()]; [polymarketCached] is [getAllCachedMarkets()] of
    the live-feed module. *)
Definition getCachedMarkets (polymarketCached : list Market.t) (st : ApiState) : list Market.t :=
  if negb (is_empty polymarketCached) then
    polymarketCached
      ++ List.filter (fun m => Platform_eqb (Market.platform m) kalshi) (cachedMarkets st)
  else cachedMarkets st.

(** ** [server/api-clients.ts]: the cross-source matcher *)

Record MarketSimilarity := {
  ms_polymarket : option Market.t;
  ms_kalshi : option Market.t;
  similarity : Q
}.

Definition normalizeTitle (title : string) : string :=
  string_of_list_ascii
    (JsStr.trim
       (JsStr.collapse_spaces
          (JsStr.strip_other
             (JsStr.toLowerCase (list_ascii_of_string title))))).

Definition calculateSimilarity (title1 title2 : string) : Q :=
  let norm1 := normalizeTitle title1 in
  let norm2 := normalizeTitle title2 in
  let words1 := JsStr.split_space norm1 in
  let words2 := JsStr.split_space norm2 in
  let set2 : gset string := list_to_set words2 in
  let intersection := List.filter (fun x => bool_decide (x ∈ set2)) words1 in
  let unionSet : gset string := list_to_set (words1 ++ words2) in
  inject_Z (Z.of_nat (length intersection)) / inject_Z (Z.of_nat (size unionSet)).

(** One iteration of the inner loop over [kalshiMarkets]. *)
Definition bestMatchStep (usedKalshi : gset string) (pm : Market.t)
    (bestMatch : option (Market.t * Q)) (kl : Market.t) : option (Market.t * Q) :=
  if bool_decide (Market.id kl ∈ usedKalshi) then bestMatch
  else
    let sim := calculateSimilarity (Market.title pm) (Market.title kl) in
    if JsNum.gtb sim 0.3
       && match bestMatch with
          | None => true
          | Some best => JsNum.gtb sim (snd best)
          end
    then Some (kl, sim)
    else bestMatch.

Definition findBestMatch (usedKalshi : gset string) (pm : Market.t)
    (kalshiMarkets : list Market.t) : option (Market.t * Q) :=
  fold_left (bestMatchStep usedKalshi pm) kalshiMarkets None.

(** One iteration of the outer loop over [polymarketMarkets]; the loop state
    is the array [matches] and the set [usedKalshi]. *)
Definition matchStep (kalshiMarkets : list Market.t)
    (acc : list MarketSimilarity * gset string) (pm : Market.t)
    : list MarketSimilarity * gset string :=
  let '(matches, usedKalshi) := acc in
  match findBestMatch usedKalshi pm kalshiMarkets with
  | Some (market, sim) =>
      if JsNum.gtb sim 0.4 then
        (matches ++ [ {| ms_polymarket := Some pm;
                         ms_kalshi := Some market;
                         similarity := sim |} ],
         {[ Market.id market ]} ∪ usedKalshi)
      else acc
  | None => acc
  end.

Definition findMatchingMarkets (markets : list Market.t) : list MarketSimilarity :=
  let polymarketMarkets :=
    List.filter (fun m => Platform_eqb (Market.platform m) polymarket) markets in
  let kalshiMarkets :=
    List.filter (fun m => Platform_eqb (Market.platform m) kalshi) markets in
  fst (fold_left (matchStep kalshiMarkets) polymarketMarkets ([], ∅)).

(** ** [server/api-clients.ts]: the spread radar *)

(** [arr.sort(cmp)]: [a] stays before [b] unless [cmp(a, b) > 0]. *)
Fixpoint insert_by {A} (cmp : A -> A -> Q) (x : A) (l : list A) : list A :=
  match l with
  | [] => [x]
  | y :: rest =>
      if Qle_bool (cmp x y) 0 then x :: l else y :: insert_by cmp x rest
  end.

Definition sort_by {A} (cmp : A -> A -> Q) (l : list A) : list A :=
  fold_right (insert_by cmp) [] l.

(** The comparator [(a, b) => b.spreadPercent - a.spreadPercent]. *)
Definition bySpreadDesc (a b : SpreadOpportunity.t) : Q :=
  SpreadOpportunity.spreadPercent b - SpreadOpportunity.spreadPercent a.

Definition mkSpread := SpreadOpportunity.mk.

(** The demo opportunities; [now] is [new Date().toISOString()]. *)
Definition mockSpreads (now : string) : list SpreadOpportunity.t := [
  mkSpread "mock-1" "Will Bitcoin exceed $150,000 by end of 2025?"
    (Some "poly-btc-150k") (Some "kalshi-btc-150k") (Some 0.42) (Some 0.35)
    7.0 polymarket_higher 2500000 crypto "2025-12-31" high now;
  mkSpread "mock-2" "Will Ethereum reach $10,000 in 2025?"
    (Some "poly-eth-10k") (Some "kalshi-eth-10k") (Some 0.28) (Some 0.34)
    6.0 kalshi_higher 1800000 crypto "2025-12-31" high now;
  mkSpread "mock-3" "Will Fed cut rates in January 2025?"
    (Some "poly-fed-jan") (Some "kalshi-fed-jan") (Some 0.15) (Some 0.22)
    7.0 kalshi_higher 3200000 economy "2025-01-31" high now;
  mkSpread "mock-4" "Will Tesla stock hit $500 by Q1 2025?"
    (Some "poly-tsla-500") (Some "kalshi-tsla-500") (Some 0.55) (Some 0.48)
    7.0 polymarket_higher 1500000 economy "2025-03-31" medium now;
  mkSpread "mock-5" "Will Ukraine conflict end before July 2025?"
    (Some "poly-ukraine") (Some "kalshi-ukraine") (Some 0.18) (Some 0.25)
    7.0 kalshi_higher 4500000 politics "2025-06-30" medium now;
  mkSpread "mock-6" "Will Solana flip Ethereum market cap in 2025?"
    (Some "poly-sol-flip") (Some "kalshi-sol-flip") (Some 0.08) (Some 0.12)
    4.0 kalshi_higher 890000 crypto "2025-12-31" medium now;
  mkSpread "mock-7" "Will Apple release AR glasses in 2025?"
    (Some "poly-apple-ar") (Some "kalshi-apple-ar") (Some 0.38) (Some 0.32)
    6.0 polymarket_higher 720000 tech "2025-12-31" low now;
  mkSpread "mock-8" "Will S&P 500 reach 6500 by mid-2025?"
    (Some "poly-sp500") (Some "kalshi-sp500") (Some 0.62) (Some 0.55)
    7.0 polymarket_higher 2100000 economy "2025-06-30" high now
].

(** [pmPrice > klPrice ? "polymarket_higher" : "kalshi_higher"] *)
Definition crossDirection (pmPrice klPrice : Q) : Direction :=
  if JsNum.gtb pmPrice klPrice then polymarket_higher else kalshi_higher.

(** The body of the loop over [matches]: [None] is a [continue].  The
    spread is computed exactly; the program computes it in doubles, so that
    a pair whose exact spread is 2 can fall on the other side of the
    [spreadPercent < 2] test, and [Math.round] can see a value just off a
    half. *)
Definition crossOpportunity (now : string) (index : nat) (mtch : MarketSimilarity)
    : option SpreadOpportunity.t :=
  match ms_polymarket mtch, ms_kalshi mtch with
  | Some pm, Some kl =>
      let pmPrice := Market.yesPrice pm in
      let klPrice := Market.yesPrice kl in
      let spreadPercent := Qabs (pmPrice - klPrice) * 100 in
      if JsNum.ltb spreadPercent 2 then None
      else
        let conf :=
          if JsNum.gtb (similarity mtch) 0.7 then high
          else if JsNum.gtb (similarity mtch) 0.5 then medium
          else low in
        Some {| SpreadOpportunity.id := "spread-" ++ JsStr.of_nat index;
                SpreadOpportunity.title := Market.title pm;
                SpreadOpportunity.polymarketId := Some (Market.id pm);
                SpreadOpportunity.kalshiId := Some (Market.id kl);
                SpreadOpportunity.polymarketYesPrice := Some pmPrice;
                SpreadOpportunity.kalshiYesPrice := Some klPrice;
                SpreadOpportunity.spreadPercent := JsNum.round (spreadPercent * 10) / 10;
                SpreadOpportunity.spreadDirection := crossDirection pmPrice klPrice;
                SpreadOpportunity.combinedVolume := Market.volume pm + Market.volume kl;
                SpreadOpportunity.category := Market.category pm;
                SpreadOpportunity.resolutionDate := Market.resolutionDate pm;
                SpreadOpportunity.confidence := conf;
                SpreadOpportunity.detectedAt := now |}
  | _, _ => None
  end.

(** The loop [for (let index = 0; index < matches.length; index++)], entered
    at [index] with the remaining matches. *)
Fixpoint crossLoop (now : string) (index : nat) (matches : list MarketSimilarity)
    : list SpreadOpportunity.t :=
  match matches with
  | [] => []
  | mtch :: rest =>
      match crossOpportunity now index mtch with
      | Some o => o :: crossLoop now (S index) rest
      | None => crossLoop now (S index) rest
      end
  end.

(** [Math.abs(m.yesPrice - (1 - m.noPrice)) * 100], computed exactly; in
    the program the two subtractions are rounded, so that prices which add
    up to 1 can yield a spread of a few units in the last place instead of
    0, and a spread of exactly 5 can come out just above 5. *)
Definition internalSpread (m : Market.t) : Q :=
  Qabs (Market.yesPrice m - (1 - Market.noPrice m)) * 100.

(** The [.map] callback of [singlePlatformSpreads]. *)
Definition internalOpportunity (now : string) (index : nat) (m : Market.t)
    : SpreadOpportunity.t :=
  let isPm := Platform_eqb (Market.platform m) polymarket in
  let isKl := Platform_eqb (Market.platform m) kalshi in
  {| SpreadOpportunity.id := "internal-spread-" ++ JsStr.of_nat index;
     SpreadOpportunity.title := Market.title m;
     SpreadOpportunity.polymarketId := if isPm then Some (Market.id m) else None;
     SpreadOpportunity.kalshiId := if isKl then Some (Market.id m) else None;
     SpreadOpportunity.polymarketYesPrice := if isPm then Some (Market.yesPrice m) else None;
     SpreadOpportunity.kalshiYesPrice := if isKl then Some (Market.yesPrice m) else None;
     SpreadOpportunity.spreadPercent :=
       JsNum.round (Qabs (Market.yesPrice m - (1 - Market.noPrice m)) * 1000) / 10;
     SpreadOpportunity.spreadDirection := if isPm then polymarket_higher else kalshi_higher;
     SpreadOpportunity.combinedVolume := Market.volume m;
     SpreadOpportunity.category := Market.category m;
     SpreadOpportunity.resolutionDate := Market.resolutionDate m;
     SpreadOpportunity.confidence := medium;
     SpreadOpportunity.detectedAt := now |}.

Definition singlePlatformSpreads (now : string) (markets : list Market.t)
    : list SpreadOpportunity.t :=
  imap (internalOpportunity now)
       (List.filter (fun m => JsNum.gtb (internalSpread m) 5) markets).

(** The cross-source opportunities, after [opportunities.sort(...)]. *)
Definition crossOpportunities (now : string) (markets : list Market.t)
    : list SpreadOpportunity.t :=
  sort_by bySpreadDesc (crossLoop now 0 (findMatchingMarkets markets)).

(** The array that is ranked: [[...mockSpreads, ...opportunities,
    ...singlePlatformSpreads]]. *)
Definition allOpportunities (now : string) (markets : list Market.t)
    : list SpreadOpportunity.t :=
  mockSpreads now ++ crossOpportunities now markets ++ singlePlatformSpreads now markets.

(** [detectSpreadOpportunities()] once [getCachedMarkets()] has delivered
    [markets]. *)
Definition detectSpreadOpportunities (now : string) (markets : list Market.t)
    : list SpreadOpportunity.t :=
  take 20 (sort_by bySpreadDesc (allOpportunities now markets)).

(** ** The live-feed module ([./polymarket-ws]): the Polymarket adapter *)

Definition mapCategory (title description : string) : Category :=
  let text := JsStr.lower (title ++ " " ++ description) in
  if JsStr.includes text "bitcoin" || JsStr.includes text "crypto"
     || JsStr.includes text "ethereum" || JsStr.includes text "btc"
     || JsStr.includes text "eth" || JsStr.includes text "solana" then crypto
  else if JsStr.includes text "president" || JsStr.includes text "election"
     || JsStr.includes text "congress" || JsStr.includes text "trump"
     || JsStr.includes text "biden" || JsStr.includes text "political" then politics
  else if JsStr.includes text "super bowl" || JsStr.includes text "nfl"
     || JsStr.includes text "nba" || JsStr.includes text "championship"
     || JsStr.includes text "world cup" || JsStr.includes text "olympic" then sports
  else if JsStr.includes text "inflation" || JsStr.includes text "fed"
     || JsStr.includes text "interest rate" || JsStr.includes text "gdp"
     || JsStr.includes text "economy" || JsStr.includes text "recession" then economy
  else if JsStr.includes text "ai" || JsStr.includes text "openai"
     || JsStr.includes text "tesla" || JsStr.includes text "apple"
     || JsStr.includes text "google" || JsStr.includes text "tech" then tech
  else trending.

(** A listing of the Gamma payload.  [price0] and [price1] are
    [parseFloat(prices[0])] and [parseFloat(prices[1])], [volumeParsed] is
    [parseFloat(market.volume)]; absent strings are empty and an absent or
    unreadable [clobTokenIds] is the empty list (reading it is the last step
    of the loop body, so a failure there has no further effect).
    [pricesUnreadable] tells that [outcomePrices] is a string that
    [JSON.parse] rejects, which only the direct endpoint tries. *)
Module PolymarketMarketData.
Record t := mk {
  id : string;
  question : string;
  description : string;
  slug : string;
  pricesUnreadable : bool;
  price0 : JsNum.raw;
  price1 : JsNum.raw;
  volumeNum : JsNum.raw;
  volumeParsed : JsNum.raw;
  active : bool;
  closed : bool;
  endDate : string;
  clobTokenIds : list string
}.
End PolymarketMarketData.

Module PolymarketEvent.
Record t := mk {
  id : string;
  slug : string;
  title : string;
  description : string;
  markets : list PolymarketMarketData.t;
  active : bool;
  closed : bool
}.
End PolymarketEvent.

(** The record [marketData] that both fetch loops build, for the title,
    description, category and volume that the loop has computed. *)
Definition polymarketToMarket (title description : string) (category : Category)
    (volume : Q) (market : PolymarketMarketData.t) : Market.t :=
  let yesPrice := JsNum.or_else (PolymarketMarketData.price0 market) 0.5 in
  let noPrice := JsNum.or_else (PolymarketMarketData.price1 market) (1 - yesPrice) in
  {| Market.id := "pm-" ++ PolymarketMarketData.id market;
     Market.title := title;
     Market.description := description;
     Market.platform := polymarket;
     Market.category := category;
     Market.yesPrice := JsNum.max 0.01 (JsNum.min 0.99 yesPrice);
     Market.noPrice := JsNum.max 0.01 (JsNum.min 0.99 noPrice);
     Market.volume := JsNum.round volume;
     Market.resolutionDate := JsStr.or_else (PolymarketMarketData.endDate market) "" |}.

(** [marketData] in [fetchPolymarketMarketsDirect]. *)
Definition directToMarket (market : PolymarketMarketData.t) : Market.t :=
  polymarketToMarket
    (JsStr.or_else (PolymarketMarketData.question market) "Untitled")
    (JsStr.or_else (PolymarketMarketData.description market) "")
    (mapCategory (PolymarketMarketData.question market)
                 (PolymarketMarketData.description market))
    (JsNum.or_else (PolymarketMarketData.volumeNum market)
                   (JsNum.or_else (PolymarketMarketData.volumeParsed market) 0))
    market.

(** [marketData] in [fetchAllPolymarketEvents]. *)
Definition eventToMarket (event : PolymarketEvent.t) (market : PolymarketMarketData.t)
    : Market.t :=
  polymarketToMarket
    (JsStr.or_else (PolymarketMarketData.question market)
                   (JsStr.or_else (PolymarketEvent.title event) "Untitled"))
    (JsStr.or_else (PolymarketEvent.description event) "")
    (mapCategory (JsStr.or_else (PolymarketMarketData.question market)
                                (PolymarketEvent.title event))
                 (PolymarketEvent.description event))
    (JsNum.or_else (PolymarketMarketData.volumeParsed market) 0)
    market.

(** The three module-level maps. *)
Record FeedCache := {
  marketCache : gmap string Market.t;
  assetToMarketMap : gmap string string;
  slugToMarketId : gmap string string
}.

(** [marketCache.set], the slug entry and the token entries of one listing. *)
Definition ingestMarket (market : PolymarketMarketData.t) (marketData : Market.t)
    (st : FeedCache) : FeedCache :=
  {| marketCache := <[Market.id marketData := marketData]> (marketCache st);
     assetToMarketMap :=
       fold_left (fun acc tokenId => <[tokenId := Market.id marketData]> acc)
                 (PolymarketMarketData.clobTokenIds market) (assetToMarketMap st);
     slugToMarketId :=
       match PolymarketMarketData.slug market with
       | EmptyString => slugToMarketId st
       | _ => <[PolymarketMarketData.slug market := Market.id marketData]> (slugToMarketId st)
       end |}.

(** One iteration of the loop of [fetchPolymarketMarketsDirect]; the loop
    state is the array [markets] and the maps. *)
Definition directStep (acc : list Market.t * FeedCache) (market : PolymarketMarketData.t)
    : list Market.t * FeedCache :=
  if negb (PolymarketMarketData.active market) || PolymarketMarketData.closed market then acc
  else if PolymarketMarketData.pricesUnreadable market then acc
  else
    let marketData := directToMarket market in
    (fst acc ++ [marketData], ingestMarket market marketData (snd acc)).

(** The loop of [fetchPolymarketMarketsDirect] over the payload. *)
Definition ingestDirect (data : list PolymarketMarketData.t) (st : FeedCache)
    : list Market.t * FeedCache :=
  fold_left directStep data ([], st).

(** One iteration of the inner loop of [fetchAllPolymarketEvents]. *)
Definition eventMarketStep (event : PolymarketEvent.t)
    (acc : list Market.t * FeedCache) (market : PolymarketMarketData.t)
    : list Market.t * FeedCache :=
  if negb (PolymarketMarketData.active market) || PolymarketMarketData.closed market then acc
  else
    let marketData := eventToMarket event market in
    (fst acc ++ [marketData], ingestMarket market marketData (snd acc)).

(** One iteration of the outer loop of [fetchAllPolymarketEvents]. *)
Definition eventStep (acc : list Market.t * FeedCache) (event : PolymarketEvent.t)
    : list Market.t * FeedCache :=
  if negb (PolymarketEvent.active event) || PolymarketEvent.closed event then acc
  else fold_left (eventMarketStep event) (PolymarketEvent.markets event) acc.

Definition ingestEvents (events : list PolymarketEvent.t) (st : FeedCache)
    : list Market.t * FeedCache :=
  fold_left eventStep events ([], st).

(** [fetchAllPolymarketEvents()] and [fetchPolymarketMarketsDirect()]; the
    payload is [None] when the request fails, the status is not 2xx or the
    body is not JSON, which the [catch] block turns into an empty result. *)
Definition fetchAllPolymarketEvents (payload : option (list PolymarketEvent.t))
    (st : FeedCache) : list Market.t * FeedCache :=
  match payload with
  | Some events => ingestEvents events st
  | None => ([], st)
  end.

Definition fetchPolymarketMarketsDirect (payload : option (list PolymarketMarketData.t))
    (st : FeedCache) : list Market.t * FeedCache :=
  match payload with
  | Some data => ingestDirect data st
  | None => ([], st)
  end.

Definition getMarketById (id : string) (st : FeedCache) : option Market.t :=
  marketCache st !! id.

(** The values of [marketCache].  A JavaScript [Map] lists them in insertion
    order, a [gmap] in an order of its own: only the content of this list is
    meaningful. *)
Definition getAllCachedMarkets (st : FeedCache) : list Market.t :=
  (map_to_list (marketCache st)).*2.

(** ** The live-feed module: trade messages *)

Module TradePayload.
Record t := mk {
  market_slug : string;
  outcome : string;
  price : JsNum.raw;
  size : JsNum.raw;
  side : string;
  timestamp : JsNum.raw
}.
End TradePayload.

(** [payload] is [None] when the message carries none (or [null]). *)
Module RTDSMessage.
Record t := mk {
  topic : string;
  type : string;
  payload : option TradePayload.t
}.
End RTDSMessage.

Definition nonempty (s : string) : bool :=
  match s with EmptyString => false | _ => true end.

(** [market.yesPrice = ...; market.noPrice = ...] for a trade at [newPrice].
    The complement is exact here; the program rounds it to a double, which
    is [1] when [newPrice] is at most [2^-54]. *)
Definition applyTrade (market : Market.t) (outcome : string) (newPrice : Q) : Market.t :=
  if String.eqb outcome "Yes" || String.eqb outcome "yes"
  then Market.set_prices market newPrice (1 - newPrice)
  else Market.set_prices market (1 - newPrice) newPrice.

Definition handleRTDSMessage (message : RTDSMessage.t) (st : FeedCache) : FeedCache :=
  if String.eqb (RTDSMessage.topic message) "activity" && String.eqb (RTDSMessage.type message) "trades" then
    match RTDSMessage.payload message with
    | Some payload =>
        if nonempty (TradePayload.market_slug payload) && JsNum.truthy (TradePayload.price payload) then
          match slugToMarketId st !! TradePayload.market_slug payload with
          | Some marketId =>
              if nonempty marketId then
                match marketCache st !! marketId, TradePayload.price payload with
                | Some market, Some newPrice =>
                    if JsNum.gtb newPrice 0 && JsNum.ltb newPrice 1 then
                      {| marketCache :=
                           <[marketId := applyTrade market (TradePayload.outcome payload) newPrice]>
                             (marketCache st);
                         assetToMarketMap := assetToMarketMap st;
                         slugToMarketId := slugToMarketId st |}
                    else st
                | _, _ => st
                end
              else st
          | None => st
          end
        else st
    | None => st
    end
  else st.

(** ** The live-feed module: connection and reconnection *)

Inductive ReadyState := CONNECTING | OPEN | CLOSING | CLOSED.

(** [wsConnection] (with the ready state of the socket it holds),
    [reconnectAttempts], and the delays of the [setTimeout] callbacks that
    have not fired yet, oldest first. *)
Record FeedConn := {
  wsConnection : option ReadyState;
  reconnectAttempts : nat;
  timers : list Z
}.

Definition MAX_RECONNECT_ATTEMPTS : nat := 5.
Definition RECONNECT_DELAY : Z := 5000.

Definition initialFeedConn : FeedConn :=
  {| wsConnection := None; reconnectAttempts := 0; timers := [] |}.

Definition scheduleReconnect (st : FeedConn) : FeedConn :=
  if (MAX_RECONNECT_ATTEMPTS <=? reconnectAttempts st)%nat then st
  else
    let attempts := S (reconnectAttempts st) in
    let delay := (RECONNECT_DELAY * Z.of_nat attempts)%Z in
    {| wsConnection := wsConnection st;
       reconnectAttempts := attempts;
       timers := timers st ++ [delay] |}.

(** [connectWebSocket()]; [ctorThrows] tells whether [new WebSocket(...)]
    throws, which sends control to the [catch] block. *)
Definition connectWebSocket (ctorThrows : bool) (st : FeedConn) : FeedConn :=
  match wsConnection st with
  | Some OPEN => st
  | _ =>
      if ctorThrows then scheduleReconnect st
      else {| wsConnection := Some CONNECTING;
              reconnectAttempts := reconnectAttempts st;
              timers := timers st |}
  end.

(** The ["open"] handler. *)
Definition onOpen (st : FeedConn) : FeedConn :=
  {| wsConnection := Some OPEN; reconnectAttempts := 0; timers := timers st |}.

(** The ["close"] handler. *)
Definition onClose (st : FeedConn) : FeedConn :=
  scheduleReconnect
    {| wsConnection := Some CLOSED;
       reconnectAttempts := reconnectAttempts st;
       timers := timers st |}.

(** What can happen to the connection: [getPolymarketMarkets] finds a
    non-empty cache and no socket, the socket opens, closes or reports an
    error, or the oldest pending timer fires. *)
Inductive FeedEvent :=
| EvFirstConnect
| EvOpen
| EvClose
| EvError
| EvTimer.

Definition feedStep (st : FeedConn) (ev : FeedEvent) : FeedConn :=
  match ev with
  | EvFirstConnect =>
      match wsConnection st with
      | None => connectWebSocket false st
      | Some _ => st
      end
  | EvOpen => onOpen st
  | EvClose => onClose st
  | EvError => st
  | EvTimer =>
      match timers st with
      | [] => st
      | _ :: pending =>
          connectWebSocket false
            {| wsConnection := wsConnection st;
               reconnectAttempts := reconnectAttempts st;
               timers := pending |}
      end
  end.

Definition feedRun (st : FeedConn) (evs : list FeedEvent) : FeedConn :=
  fold_left feedStep evs st.


(** ** The live-feed module: the periodic refresh *)

(** The maps, the connection and [lastFullRefresh]. *)
Record FeedState := {
  feedCache : FeedCache;
  feedConn : FeedConn;
  lastFullRefresh : Z
}.

Definition FULL_REFRESH_INTERVAL : Z := 30000.

Definition initialFeedState : FeedState :=
  {| feedCache := {| marketCache := ∅; assetToMarketMap := ∅; slugToMarketId := ∅ |};
     feedConn := initialFeedConn;
     lastFullRefresh := 0 |}.

(** The loop of [getPolymarketMarkets] over [[...eventsMarkets,
    ...directMarkets]]: a record is stored unless its id is a key already. *)
Definition backfill (markets : list Market.t) (cache : gmap string Market.t)
    : gmap string Market.t :=
  fold_left
    (fun c m =>
       match c !! Market.id m with
       | Some _ => c
       | None => <[Market.id m := m]> c
       end)
    markets cache.

(** The two fetches of [Promise.all]: each loop runs without interruption
    once its payload has arrived, and [directFirst] tells which payload
    arrives first.  Returns [eventsMarkets], [directMarkets] and the maps. *)
Definition fetchBoth (eventsPayload : option (list PolymarketEvent.t))
    (directPayload : option (list PolymarketMarketData.t)) (directFirst : bool)
    (st : FeedCache) : list Market.t * list Market.t * FeedCache :=
  if directFirst then
    let d := fetchPolymarketMarketsDirect directPayload st in
    let e := fetchAllPolymarketEvents eventsPayload (snd d) in
    (fst e, fst d, snd e)
  else
    let e := fetchAllPolymarketEvents eventsPayload st in
    let d := fetchPolymarketMarketsDirect directPayload (snd e) in
    (fst e, fst d, snd d).

Definition refreshDue (now : Z) (st : FeedState) : bool :=
  (size (marketCache (feedCache st)) =? 0)%nat
  || (FULL_REFRESH_INTERVAL <? now - lastFullRefresh st)%Z.

Definition getPolymarketMarkets (now : Z)
    (eventsPayload : option (list PolymarketEvent.t))
    (directPayload : option (list PolymarketMarketData.t)) (directFirst : bool)
    (st : FeedState) : list Market.t * FeedState :=
  if refreshDue now st then
    let '(eventsMarkets, directMarkets, fetched) :=
      fetchBoth eventsPayload directPayload directFirst (feedCache st) in
    let cache :=
      {| marketCache := backfill (eventsMarkets ++ directMarkets) (marketCache fetched);
         assetToMarketMap := assetToMarketMap fetched;
         slugToMarketId := slugToMarketId fetched |} in
    let conn :=
      if negb (size (marketCache cache) =? 0)%nat then
        match wsConnection (feedConn st) with
        | None => connectWebSocket false (feedConn st)
        | Some _ => feedConn st
        end
      else feedConn st in
    (getAllCachedMarkets cache,
     {| feedCache := cache; feedConn := conn; lastFullRefresh := now |})
  else (getAllCachedMarkets (feedCache st), st).

(** ** [server/api-clients.ts]: lookup by id *)

(** [getCachedMarketById(id)]; [feed] holds the maps of the live-feed
    module. *)
Definition getCachedMarketById (id : string) (feed : FeedCache) (st : ApiState)
    : option Market.t :=
  let inCache := List.find (fun m => String.eqb (Market.id m) id) (cachedMarkets st) in
  if String.prefix "pm-" id then
    match getMarketById id feed with
    | Some polyMarket => Some polyMarket
    | None => inCache
    end
  else inCache.
(** ** Predicates of the specification and sample data *)

(** *** The price invariants *)

(** Both prices of a record lie in the closed interval from 0.01 to 0.99. *)
Definition clamped (m : Market.t) : Prop :=
  (0.01 <= Market.yesPrice m /\ Market.yesPrice m <= 0.99) /\
  (0.01 <= Market.noPrice m /\ Market.noPrice m <= 0.99).

(** Both prices of a record lie strictly between 0 and 1. *)
Definition in_unit (m : Market.t) : Prop :=
  (0 < Market.yesPrice m /\ Market.yesPrice m < 1) /\
  (0 < Market.noPrice m /\ Market.noPrice m < 1).

(** Both prices of a record are above 0 and at most 1.  This is what a
    price patch guarantees also when the complement [1 - p] is rounded to
    a double. *)
Definition within_unit (m : Market.t) : Prop :=
  (0 < Market.yesPrice m /\ Market.yesPrice m <= 1) /\
  (0 < Market.noPrice m /\ Market.noPrice m <= 1).

Definition cache_all (P : Market.t -> Prop) (st : FeedCache) : Prop :=
  forall key m, marketCache st !! key = Some m -> P m.

(** The state of a fetch loop of the Polymarket adapter: the records pushed
    so far and the records of the cache are clamped. *)
Definition loop_clamped (acc : list Market.t * FeedCache) : Prop :=
  Forall clamped (fst acc) /\ cache_all clamped (snd acc).

(** A Polymarket record as the adapter builds it, the cache and slug index
    that hold it, and three trade messages: one for its slug at a price close
    to 1, one for a slug that no adapter has indexed, one at a price of 1.5. *)
Definition sampleMarket : Market.t :=
  mkMarket "pm-1" "Will BTC hit $150k?" "" polymarket crypto 0.42 0.58 1000 "".

Definition sampleCache : FeedCache :=
  {| marketCache := {[ "pm-1" := sampleMarket ]};
     assetToMarketMap := ∅;
     slugToMarketId := {[ "btc-150k" := "pm-1" ]} |}.

Definition tradeMessage (slug : string) (newPrice : Q) : RTDSMessage.t :=
  RTDSMessage.mk "activity" "trades"
    (Some (TradePayload.mk slug "Yes" (Some newPrice) (Some 10) "BUY" (Some 0))).

Definition extremeTrade : RTDSMessage.t := tradeMessage "btc-150k" 0.995.
Definition unknownSlugTrade : RTDSMessage.t := tradeMessage "eth-10k" 0.5.
Definition outOfRangeTrade : RTDSMessage.t := tradeMessage "btc-150k" 1.5.

(** The live-feed patch keeps the cache unchanged. *)
Definition patch_ignored (message : RTDSMessage.t) (st : FeedCache) : Prop :=
  handleRTDSMessage message st = st /\
  size (marketCache (handleRTDSMessage message st)) = size (marketCache st) /\
  forall key m, marketCache st !! key = Some m ->
    marketCache (handleRTDSMessage message st) !! key = Some m.

(** *** Sample data for the Kalshi adapter *)

Definition openListing : KalshiMarket.t :=
  KalshiMarket.mk "BTC150" "Bitcoin to exceed $150,000" "" (Some 34) (Some 36)
    (Some 64) (Some 66) (Some 1000) "2025-12-31" "open" "Crypto" "BTC".

Definition settledListing : KalshiMarket.t :=
  KalshiMarket.mk "FED25" "Fed cut in 2024" "" (Some 99) (Some 100)
    (Some 0) (Some 1) (Some 500) "2024-12-31" "settled" "Economics" "FED".

(** A cache state in which a refresh has stored one live record. *)
Definition liveApiState : ApiState :=
  {| cachedMarkets := [sampleMarket]; lastFetchTime := 1000; isLiveData := true |}.

(** *** Ranking *)

(** [a] may stand before [b] in a list ranked by falling spread. *)
Definition spread_ge (a b : SpreadOpportunity.t) : Prop :=
  SpreadOpportunity.spreadPercent b <= SpreadOpportunity.spreadPercent a.

(** The ranking without the demo opportunities. *)
Definition detectedOnly (now : string) (markets : list Market.t)
    : list SpreadOpportunity.t :=
  take 20 (sort_by bySpreadDesc
             (crossOpportunities now markets ++ singlePlatformSpreads now markets)).

(** A Kalshi listing whose book is inconsistent by six points. *)
Definition skewedMarket (i : nat) : Market.t :=
  mkMarket ("kl-" ++ JsStr.of_nat i) ("Listing " ++ JsStr.of_nat i) ""
    kalshi trending 0.5 0.44 100 "".

Definition skewedMarkets : list Market.t := List.map skewedMarket (seq 0 14).

(** The ids of the ranking for [skewedMarkets]: the five demo entries at
    7.0, the two at 6.0, and the first 13 of the 14 detected entries. *)
Definition skewedRanking : list string :=
  ["mock-1"; "mock-3"; "mock-4"; "mock-5"; "mock-8"; "mock-2"; "mock-7"]
  ++ List.map (fun i => ("internal-spread-" ++ JsStr.of_nat i)%string) (seq 0 13).

(** *** Matching *)

(** The ids of the Kalshi sides and of the Polymarket sides of a list of
    pairs, and the Polymarket records of the snapshot in iteration order. *)
Definition matchedKalshiIds (matches : list MarketSimilarity) : list string :=
  omap (fun mtch => Market.id <$> ms_kalshi mtch) matches.

Definition matchedPolymarketIds (matches : list MarketSimilarity) : list string :=
  omap (fun mtch => Market.id <$> ms_polymarket mtch) matches.

Definition polymarketIds (markets : list Market.t) : list string :=
  List.map Market.id
    (List.filter (fun m => Platform_eqb (Market.platform m) polymarket) markets).

Definition both_sides (mtch : MarketSimilarity) : Prop :=
  is_Some (ms_polymarket mtch) /\ is_Some (ms_kalshi mtch).

(** The loop invariant of [findMatchingMarkets] once the Polymarket records
    [processed] have been visited. *)
Definition matchInv (processed : list Market.t)
    (acc : list MarketSimilarity * gset string) : Prop :=
  Forall both_sides (fst acc) /\
  (forall x, x ∈ matchedKalshiIds (fst acc) -> x ∈ snd acc) /\
  NoDup (matchedKalshiIds (fst acc)) /\
  (matchedPolymarketIds (fst acc) `sublist_of` List.map Market.id processed).

(** Two Polymarket records and two Kalshi records on the same event. *)
Definition pmBitcoin : Market.t :=
  mkMarket "pm-1" "Will Bitcoin exceed $150,000?" "" polymarket crypto 0.42 0.58 1000 "".
Definition pmBitcoin2 : Market.t :=
  mkMarket "pm-2" "Will Bitcoin exceed $150,000 in 2025?" "" polymarket crypto 0.40 0.60 1000 "".
Definition klBitcoin : Market.t :=
  mkMarket "kl-1" "Bitcoin to exceed $150,000" "" kalshi crypto 0.35 0.65 1000 "".
Definition klBitcoin2 : Market.t :=
  mkMarket "kl-2" "Bitcoin to exceed $150,000 in 2025" "" kalshi crypto 0.30 0.70 1000 "".






(** Two matched records whose prices are equal. *)
Definition tiePm : Market.t :=
  mkMarket "pm-9" "Will it rain in Paris?" "" polymarket trending 0.5 0.5 10 "".
Definition tieKl : Market.t :=
  mkMarket "kl-9" "Will it rain in Paris?" "" kalshi trending 0.5 0.5 10 "".

Definition sampleNow : string := "2025-01-01T00:00:00.000Z".

(** The opportunity that the detector emits for [pmBitcoin] and
    [klBitcoin]. *)
Definition sampleSpread : SpreadOpportunity.t :=
  mkSpread "spread-0" "Will Bitcoin exceed $150,000?" (Some "pm-1") (Some "kl-1")
    (Some 0.42) (Some 0.35) 7.0 polymarket_higher 2000 crypto "" medium sampleNow.

(** *** The connection *)

Definition no_open (evs : list FeedEvent) : Prop :=
  Forall (fun ev => ev <> EvOpen) evs.

(** The first connection followed by five closes in a row, each reconnect
    timer firing before the next close. *)
Definition fiveFailures : list FeedEvent :=
  [EvFirstConnect; EvClose; EvTimer; EvClose; EvTimer; EvClose; EvTimer; EvClose;
   EvTimer; EvClose].

(** *** The live-feed module as a whole *)

(** What can happen to the live-feed module: a call of
    [getPolymarketMarkets], a trade message, a connection event. *)
Inductive FeedOp :=
| OpRefresh (now : Z) (eventsPayload : option (list PolymarketEvent.t))
            (directPayload : option (list PolymarketMarketData.t)) (directFirst : bool)
| OpMessage (message : RTDSMessage.t)
| OpEvent (ev : FeedEvent).

Definition feedOp (st : FeedState) (op : FeedOp) : FeedState :=
  match op with
  | OpRefresh now eventsPayload directPayload directFirst =>
      snd (getPolymarketMarkets now eventsPayload directPayload directFirst st)
  | OpMessage message =>
      {| feedCache := handleRTDSMessage message (feedCache st);
         feedConn := feedConn st;
         lastFullRefresh := lastFullRefresh st |}
  | OpEvent ev =>
      {| feedCache := feedCache st;
         feedConn := feedStep (feedConn st) ev;
         lastFullRefresh := lastFullRefresh st |}
  end.

Definition feedOps (st : FeedState) (ops : list FeedOp) : FeedState :=
  fold_left feedOp ops st.

(** The fields of a record that a price patch must not touch. *)
Definition same_identity (m m' : Market.t) : Prop :=
  Market.id m' = Market.id m /\
  Market.title m' = Market.title m /\
  Market.description m' = Market.description m /\
  Market.platform m' = Market.platform m /\
  Market.category m' = Market.category m /\
  Market.volume m' = Market.volume m /\
  Market.resolutionDate m' = Market.resolutionDate m.

(** Every key of [marketCache] is the id of its record, which is a
    Polymarket record with a [pm-] id. *)
Definition keys_coherent (st : FeedCache) : Prop :=
  forall key m, marketCache st !! key = Some m ->
    Market.id m = key /\ Market.platform m = polymarket /\ String.prefix "pm-" key = true.

(** Every entry of the slug index has a non-empty slug and points to a
    non-empty id that is a key of [marketCache]. *)
Definition slugs_resolve (st : FeedCache) : Prop :=
  forall s key, slugToMarketId st !! s = Some key ->
    nonempty s = true /\ nonempty key = true /\ is_Some (marketCache st !! key).

(** The conjunction that every operation of the module keeps. *)
Definition feed_ok (st : FeedCache) : Prop :=
  keys_coherent st /\ slugs_resolve st /\ cache_all in_unit st.

(** Every record pushed so far by an adapter loop is a key of the cache. *)
Definition pushed_cached (acc : list Market.t * FeedCache) : Prop :=
  forall m, In m (fst acc) -> is_Some (marketCache (snd acc) !! Market.id m).

(** The cache of [acc] holds every key that [st] holds. *)
Definition keeps_keys (st : FeedCache) (acc : list Market.t * FeedCache) : Prop :=
  forall key, is_Some (marketCache st !! key) -> is_Some (marketCache (snd acc) !! key).

(** A Gamma listing, an event that carries it, and a trade at 0.6. *)
Definition sampleListing : PolymarketMarketData.t :=
  PolymarketMarketData.mk "1" "Will BTC hit $150k?" "" "btc-150k" false
    (Some 0.42) None (Some 1000) None true false "2025-12-31" ["tok-yes"; "tok-no"].

Definition sampleEvent : PolymarketEvent.t :=
  PolymarketEvent.mk "e1" "btc" "Bitcoin" "Crypto prices" [sampleListing] true false.

Definition acceptedTrade : RTDSMessage.t := tradeMessage "btc-150k" 0.6.

(** A fresh process that has refreshed once from [sampleEvent] and then
    received [acceptedTrade]. *)
Definition sampleOps : list FeedOp :=
  [OpRefresh 1000 (Some [sampleEvent]) None false; OpMessage acceptedTrade].

Definition sampleFeedState : FeedState := feedOps initialFeedState sampleOps.

(** The reconnect counter is within its cap and every pending timer carries
    a delay of 5000 ms times an attempt number between 1 and 5. *)
Definition conn_ok (c : FeedConn) : Prop :=
  (reconnectAttempts c <= 5)%nat /\
  Forall (fun delay => exists attempt : nat,
            (1 <= attempt <= 5)%nat /\ delay = (5000 * Z.of_nat attempt)%Z)
         (timers c).

(** *** The cache of [api-clients.ts] *)

(** Consecutive calls of [fetchAllMarkets] at the given times, the sources
    delivering nothing. *)
Definition failedCalls (times : list Z) (st : ApiState) : ApiState :=
  fold_left (fun s now => fst (fetchAllMarkets now [] [] s)) times st.

Definition is_polymarket (m : Market.t) : bool := Platform_eqb (Market.platform m) polymarket.
Definition is_kalshi (m : Market.t) : bool := Platform_eqb (Market.platform m) kalshi.

(** *** Titles and similarity *)

(** The words of a title as [calculateSimilarity] sees them. *)
Definition titleWords (title : string) : list string :=
  JsStr.split_space (normalizeTitle title).

(** A character that a normalized title may hold. *)
Definition normal_char (c : ascii) : bool :=
  JsStr.is_lower c || JsStr.is_digit c || Ascii.eqb c " "%char.

(** No two neighbours of the list are both white space. *)
Fixpoint no_double_space (s : list ascii) : Prop :=
  match s with
  | c :: (c' :: _) as rest =>
      (JsStr.is_space c = true -> JsStr.is_space c' = false) /\ no_double_space rest
  | _ => True
  end.

(** What a matched pair owes to the snapshot it was computed from. *)
Definition pair_ok (markets : list Market.t) (mtch : MarketSimilarity) : Prop :=
  exists pm kl,
    ms_polymarket mtch = Some pm /\ ms_kalshi mtch = Some kl /\
    In pm markets /\ In kl markets /\
    Market.platform pm = polymarket /\ Market.platform kl = kalshi /\
    similarity mtch = calculateSimilarity (Market.title pm) (Market.title kl) /\
    0.4 < similarity mtch.

(** *** Listings that the Polymarket loops take *)

Definition listed (market : PolymarketMarketData.t) : bool :=
  PolymarketMarketData.active market && negb (PolymarketMarketData.closed market).

Definition listedDirect (market : PolymarketMarketData.t) : bool :=
  listed market && negb (PolymarketMarketData.pricesUnreadable market).

Definition listedEvent (event : PolymarketEvent.t) : bool :=
  PolymarketEvent.active event && negb (PolymarketEvent.closed event).

(** *** Categories *)

(** The keywords of the first rule of [mapCategory]. *)
Definition cryptoKeywords : list string :=
  ["bitcoin"; "crypto"; "ethereum"; "btc"; "eth"; "solana"].

(** The normalization of a title on lists of characters. *)
Definition normalizeChars (s : list ascii) : list ascii :=
  JsStr.trim (JsStr.collapse_spaces (JsStr.strip_other (JsStr.toLowerCase s))).

(** No two neighbours are both white space, said with positions. *)
Definition no_adjacent_spaces (s : list ascii) : Prop :=
  forall pre c c' post, s = pre ++ c :: c' :: post ->
    ~ (JsStr.is_space c = true /\ JsStr.is_space c' = true).

(** The shape of a normalized title: lower-case letters, digits and single
    blanks, none of them at either end. *)
Definition normalized (s : list ascii) : Prop :=
  Forall (fun c => normal_char c = true) s /\
  no_adjacent_spaces s /\
  (forall c rest, s = c :: rest -> JsStr.is_space c = false) /\
  (forall init c, s = init ++ [c] -> JsStr.is_space c = false).

(** *** A feed that has given up *)

(** The last socket is closed, the reconnect counter is at its cap and no
    timer is pending. *)
Definition feed_dead (c : FeedConn) : Prop :=
  wsConnection c = Some CLOSED /\
  (MAX_RECONNECT_ATTEMPTS <= reconnectAttempts c)%nat /\
  timers c = [].

Definition op_is_open (op : FeedOp) : Prop :=
  match op with OpEvent EvOpen => True | _ => False end.

(** Five failed reconnects: the fifth timer fires and its socket closes
    without having opened. *)
Definition givenUp : FeedConn :=
  feedRun initialFeedConn (fiveFailures ++ [EvTimer; EvClose]).

(** ** Properties of the embedding *)

(** *** Numbers *)

Lemma JsNum_ltb_lt x y : JsNum.ltb x y = true <-> x < y.
Proof.
  unfold JsNum.ltb. rewrite negb_true_iff, <- not_true_iff_false, Qle_bool_iff.
  split; [apply Qnot_le_lt | apply Qlt_not_le].
Qed.

Lemma JsNum_ltb_ge x y : JsNum.ltb x y = false <-> y <= x.
Proof. unfold JsNum.ltb. now rewrite negb_false_iff, Qle_bool_iff. Qed.

Lemma JsNum_gtb_gt x y : JsNum.gtb x y = true <-> y < x.
Proof. apply JsNum_ltb_lt. Qed.

Lemma JsNum_max_lower x y : x <= JsNum.max x y.
Proof.
  unfold JsNum.max. destruct (Qle_bool x y) eqn:E.
  - now apply Qle_bool_iff.
  - apply Qle_refl.
Qed.

Lemma JsNum_max_upper x y u : x <= u -> y <= u -> JsNum.max x y <= u.
Proof. unfold JsNum.max. now destruct (Qle_bool x y). Qed.

Lemma JsNum_min_upper x y : JsNum.min x y <= x.
Proof.
  unfold JsNum.min. destruct (Qle_bool x y) eqn:E.
  - apply Qle_refl.
  - apply Qlt_le_weak, Qnot_le_lt. rewrite <- Qle_bool_iff, E. discriminate.
Qed.

Lemma clamp_range v :
  0.01 <= JsNum.max 0.01 (JsNum.min 0.99 v) /\ JsNum.max 0.01 (JsNum.min 0.99 v) <= 0.99.
Proof.
  split.
  - apply JsNum_max_lower.
  - apply JsNum_max_upper; [lra | apply JsNum_min_upper].
Qed.

(** *** The price invariants *)

Lemma clamped_in_unit m : clamped m -> in_unit m.
Proof. unfold clamped, in_unit. intros [[? ?] [? ?]]. repeat split; lra. Qed.

Lemma kalshiToMarket_clamped k : clamped (kalshiToMarket k).
Proof. split; apply clamp_range. Qed.

Lemma polymarketToMarket_clamped title description category volume p :
  clamped (polymarketToMarket title description category volume p).
Proof. split; apply clamp_range. Qed.

Lemma fallbackMarkets_clamped : Forall clamped fallbackMarkets.
Proof.
  unfold fallbackMarkets, clamped.
  repeat (constructor; [cbn; repeat split; lra |]). constructor.
Qed.

Lemma ingestMarket_cache_all (P : Market.t -> Prop) market marketData st :
  P marketData -> cache_all P st -> cache_all P (ingestMarket market marketData st).
Proof.
  intros HP Hst key m. cbn. rewrite lookup_insert.
  case_decide; [intros [= <-]; exact HP | apply Hst].
Qed.

Lemma applyTrade_in_unit market outcome newPrice :
  0 < newPrice -> newPrice < 1 -> in_unit (applyTrade market outcome newPrice).
Proof.
  intros H0 H1. unfold applyTrade, in_unit.
  destruct (String.eqb outcome "Yes" || String.eqb outcome "yes"); cbn;
    repeat split; lra.
Qed.

Lemma handleRTDSMessage_cache_all (P : Market.t -> Prop) message st :
  (forall market outcome newPrice,
     0 < newPrice -> newPrice < 1 -> P (applyTrade market outcome newPrice)) ->
  cache_all P st -> cache_all P (handleRTDSMessage message st).
Proof.
  intros HP Hst. unfold handleRTDSMessage.
  destruct (String.eqb (RTDSMessage.topic message) "activity" && String.eqb (RTDSMessage.type message) "trades");
    [|exact Hst].
  destruct (RTDSMessage.payload message) as [p|]; [|exact Hst].
  destruct (nonempty (TradePayload.market_slug p) && JsNum.truthy (TradePayload.price p)); [|exact Hst].
  destruct (slugToMarketId st !! TradePayload.market_slug p) as [marketId|]; [|exact Hst].
  destruct (nonempty marketId); [|exact Hst].
  destruct (marketCache st !! marketId) as [market|]; [|exact Hst].
  destruct (TradePayload.price p) as [newPrice|]; [|exact Hst].
  destruct (JsNum.gtb newPrice 0 && JsNum.ltb newPrice 1) eqn:E; [|exact Hst].
  apply andb_true_iff in E as [E0 E1].
  apply JsNum_gtb_gt in E0. apply JsNum_ltb_lt in E1.
  intros key m. cbn. rewrite lookup_insert.
  case_decide; [intros [= <-]; now apply HP | apply Hst].
Qed.

Lemma handleRTDSMessage_in_unit message st :
  cache_all in_unit st -> cache_all in_unit (handleRTDSMessage message st).
Proof.
  apply handleRTDSMessage_cache_all. intros market outcome newPrice.
  apply applyTrade_in_unit.
Qed.

Lemma sampleCache_clamped : cache_all clamped sampleCache.
Proof.
  intros key m. cbn. rewrite lookup_singleton. case_decide; [|discriminate].
  intros [= <-]. unfold clamped. cbn. repeat split; lra.
Qed.

(** *** Patches that are dropped *)

Lemma patch_ignored_of_eq message st :
  handleRTDSMessage message st = st -> patch_ignored message st.
Proof. intros E. unfold patch_ignored. rewrite E. auto. Qed.

(** C6.  A trade message whose slug is not in the slug index, or whose price
    is not strictly between 0 and 1 (or is not a number), leaves the cache as
    it was: same state, same record count, same records. *)
Theorem unknown_slug_or_bad_price_ignored message st p :
  RTDSMessage.payload message = Some p ->
  slugToMarketId st !! TradePayload.market_slug p = None \/
  (match TradePayload.price p with
   | Some newPrice => newPrice <= 0 \/ 1 <= newPrice
   | None => True
   end) ->
  patch_ignored message st.
Proof.
  intros Hp Hbad. apply patch_ignored_of_eq. unfold handleRTDSMessage. rewrite Hp.
  destruct (String.eqb (RTDSMessage.topic message) "activity" && String.eqb (RTDSMessage.type message) "trades");
    [|reflexivity].
  destruct (nonempty (TradePayload.market_slug p) && JsNum.truthy (TradePayload.price p)); [|reflexivity].
  destruct Hbad as [Hslug | Hprice].
  - now rewrite Hslug.
  - destruct (slugToMarketId st !! TradePayload.market_slug p) as [marketId|]; [|reflexivity].
    destruct (nonempty marketId); [|reflexivity].
    destruct (marketCache st !! marketId) as [market|]; [|reflexivity].
    destruct (TradePayload.price p) as [newPrice|]; [|reflexivity].
    destruct (JsNum.gtb newPrice 0 && JsNum.ltb newPrice 1) eqn:E; [|reflexivity].
    apply andb_true_iff in E as [E0 E1].
    apply JsNum_gtb_gt in E0. apply JsNum_ltb_lt in E1.
    destruct Hprice; lra.
Qed.

Lemma unknown_slug_or_bad_price_ignored_witness :
  patch_ignored unknownSlugTrade sampleCache /\ patch_ignored outOfRangeTrade sampleCache.
Proof.
  split.
  - apply (unknown_slug_or_bad_price_ignored unknownSlugTrade sampleCache
             (TradePayload.mk "eth-10k" "Yes" (Some 0.5) (Some 10) "BUY" (Some 0))).
    + reflexivity.
    + left. vm_compute. reflexivity.
  - apply (unknown_slug_or_bad_price_ignored outOfRangeTrade sampleCache
             (TradePayload.mk "btc-150k" "Yes" (Some 1.5) (Some 10) "BUY" (Some 0))).
    + reflexivity.
    + right. cbn. right. lra.
Defined.

(** *** The cache never runs empty *)

Lemma is_empty_false {A} (l : list A) : is_empty l = false <-> l <> [].
Proof. destruct l; cbn; split; congruence. Qed.

Lemma fallbackMarkets_nonempty : fallbackMarkets <> [].
Proof. discriminate. Qed.

Lemma fetchAllMarkets_nonempty now pm kl st :
  snd (fetchAllMarkets now pm kl st) <> [].
Proof.
  unfold fetchAllMarkets.
  destruct (isLiveData st && negb (is_empty (cachedMarkets st))
            && (now - lastFetchTime st <? CACHE_TTL)%Z) eqn:Efresh.
  - cbn. apply andb_true_iff in Efresh as [Efresh _].
    apply andb_true_iff in Efresh as [_ Ene].
    apply negb_true_iff in Ene. now apply is_empty_false.
  - destruct (is_empty (pm ++ kl)) eqn:Eall; cbn.
    + destruct (is_empty (cachedMarkets st)) eqn:Ecache; cbn.
      * apply fallbackMarkets_nonempty.
      * now apply is_empty_false.
    + now apply is_empty_false.
Qed.

(** C4.  On a fresh process a refresh that brings no record from either
    source returns the static fallback list, which is not empty; in any state
    with a non-empty cache such a refresh keeps the cached list and returns
    it; and whatever the state and the fetched lists, [fetchAllMarkets]
    returns a non-empty list. *)
Theorem fetchAllMarkets_never_empty :
  (forall now, snd (fetchAllMarkets now [] [] initialApiState) = fallbackMarkets) /\
  fallbackMarkets <> [] /\
  (forall now st, cachedMarkets st <> [] ->
     cachedMarkets (fst (fetchAllMarkets now [] [] st)) = cachedMarkets st /\
     snd (fetchAllMarkets now [] [] st) = cachedMarkets st) /\
  (forall now pm kl st, snd (fetchAllMarkets now pm kl st) <> []).
Proof.
  split; [reflexivity|].
  split; [exact fallbackMarkets_nonempty|].
  split; [|exact fetchAllMarkets_nonempty].
  intros now st Hne. apply is_empty_false in Hne.
  unfold fetchAllMarkets. rewrite Hne. cbn.
  destruct (isLiveData st && true && (now - lastFetchTime st <? CACHE_TTL)%Z);
    split; reflexivity.
Qed.

Lemma fetchAllMarkets_never_empty_witness :
  cachedMarkets (fst (fetchAllMarkets 100000 [] [] liveApiState)) = [sampleMarket] /\
  snd (fetchAllMarkets 100000 [] [] liveApiState) = [sampleMarket].
Proof.
  apply (proj1 (proj2 (proj2 fetchAllMarkets_never_empty)) 100000%Z liveApiState).
  discriminate.
Defined.

(** *** The Kalshi adapter recovers from every failure *)

Lemma filterOpen_null markets : In None markets -> exists msg, filterOpen markets = Throw msg.
Proof.
  induction markets as [|[m|] rest IH]; cbn; intros Hin.
  - destruct Hin.
  - destruct Hin as [Hm | Hin]; [discriminate|].
    destruct (IH Hin) as [msg ->]. cbn. eauto.
  - eauto.
Qed.

Lemma filterOpen_listings listings :
  filterOpen (List.map Some listings) = Ok (List.filter status_is_open listings).
Proof.
  induction listings as [|m rest IH]; cbn; [reflexivity|].
  rewrite IH. cbn. reflexivity.
Qed.

Lemma filterOpen_ok markets kept :
  filterOpen markets = Ok kept ->
  forall k, In k kept -> In (Some k) markets /\ status_is_open k = true.
Proof.
  revert kept. induction markets as [|[m|] rest IH]; cbn; intros kept H k Hk.
  - injection H as <-. destruct Hk.
  - destruct (filterOpen rest) as [kept'|msg] eqn:E; cbn in H; [|discriminate].
    injection H as <-. destruct (status_is_open m) eqn:Em.
    + destruct Hk as [<- | Hk]; [auto|].
      destruct (IH kept' eq_refl k Hk). auto.
    + destruct (IH kept' eq_refl k Hk). auto.
  - discriminate.
Qed.

Lemma status_is_open_spec k :
  status_is_open k = true <->
  KalshiMarket.status k = "open" \/ KalshiMarket.status k = "active".
Proof.
  unfold status_is_open. rewrite orb_true_iff, !String.eqb_eq. reflexivity.
Qed.

(** C8.  [fetchKalshiMarkets] is total: whenever its [try] block throws
    it returns the empty list.  The block throws on a network failure, on a
    response outside the 2xx range, on a body that is not JSON, on a body
    without a [markets] array and on an array with a [null] element.  On a
    well-formed payload the result is the image of the listings whose status
    is [open] or [active], and every returned record stems from such a
    listing. *)
Theorem fetchKalshiMarkets_recovers :
  (forall outcome msg, fetchKalshiMarkets_try outcome = Throw msg ->
     fetchKalshiMarkets outcome = []) /\
  fetchKalshiMarkets NetworkFailure = [] /\
  (forall code body, response_ok code = false ->
     fetchKalshiMarkets (Response code body) = []) /\
  (forall code, fetchKalshiMarkets (Response code BodyNotJson) = []) /\
  (forall code, fetchKalshiMarkets (Response code BodyNoMarkets) = []) /\
  (forall code markets, In None markets ->
     fetchKalshiMarkets (Response code (BodyMarkets markets)) = []) /\
  (forall code listings, response_ok code = true ->
     fetchKalshiMarkets (Response code (BodyMarkets (List.map Some listings)))
     = List.map kalshiToMarket (List.filter status_is_open listings)) /\
  (forall outcome m, In m (fetchKalshiMarkets outcome) ->
     exists code markets k,
       outcome = Response code (BodyMarkets markets) /\ response_ok code = true /\
       In (Some k) markets /\
       (KalshiMarket.status k = "open" \/ KalshiMarket.status k = "active") /\
       m = kalshiToMarket k).
Proof.
  unfold fetchKalshiMarkets.
  split; [intros outcome msg ->; reflexivity|].
  split; [reflexivity|].
  split; [intros code body Hok; cbn; now rewrite Hok|].
  split; [intros code; cbn; now destruct (response_ok code)|].
  split; [intros code; cbn; now destruct (response_ok code)|].
  split.
  { intros code markets Hnull. cbn. destruct (response_ok code); [|reflexivity].
    cbn. destruct (filterOpen_null markets Hnull) as [msg ->]. reflexivity. }
  split.
  { intros code listings Hok. cbn. rewrite Hok. cbn.
    now rewrite filterOpen_listings. }
  intros [|code body] m Hin; cbn in Hin; [destruct Hin|].
  destruct (response_ok code) eqn:Hok; cbn in Hin; [|destruct Hin].
  destruct body as [| |markets]; cbn in Hin; try destruct Hin.
  destruct (filterOpen markets) as [kept|msg] eqn:Ekept; cbn in Hin; [|destruct Hin].
  apply in_map_iff in Hin as [k [<- Hk]].
  destruct (filterOpen_ok markets kept Ekept k Hk) as [Hmem Hopen].
  exists code, markets, k. repeat split; try assumption; try reflexivity.
  now apply status_is_open_spec.
Qed.

Lemma fetchKalshiMarkets_recovers_witness :
  fetchKalshiMarkets (Response 503 BodyNotJson) = [] /\
  fetchKalshiMarkets (Response 200 (BodyMarkets [Some openListing; None])) = [] /\
  fetchKalshiMarkets (Response 200 (BodyMarkets (List.map Some [openListing; settledListing])))
  = [kalshiToMarket openListing].
Proof.
  split; [|split].
  - apply (proj1 (proj2 (proj2 fetchKalshiMarkets_recovers)) 503%nat BodyNotJson).
    reflexivity.
  - apply (proj1 (proj2 (proj2 (proj2 (proj2 (proj2 fetchKalshiMarkets_recovers)))))
             200%nat [Some openListing; None]).
    right. left. reflexivity.
  - apply (proj1 (proj2 (proj2 (proj2 (proj2 (proj2 (proj2 fetchKalshiMarkets_recovers))))))
             200%nat [openListing; settledListing]).
    reflexivity.
Defined.

(** *** Sorting *)

Lemma insert_by_length {A} (c : A -> A -> Q) x l :
  length (insert_by c x l) = S (length l).
Proof.
  induction l as [|y l IH]; cbn; [reflexivity|].
  destruct (Qle_bool (c x y)); cbn; [reflexivity | now rewrite IH].
Qed.

Lemma sort_by_length {A} (c : A -> A -> Q) l : length (sort_by c l) = length l.
Proof.
  induction l as [|x l IH]; [reflexivity|].
  change (sort_by c (x :: l)) with (insert_by c x (sort_by c l)).
  now rewrite insert_by_length, IH.
Qed.

Lemma insert_by_In {A} (c : A -> A -> Q) x l z :
  In z (insert_by c x l) <-> z = x \/ In z l.
Proof.
  induction l as [|y l IH]; cbn.
  - intuition congruence.
  - destruct (Qle_bool (c x y)); cbn; [intuition congruence|].
    rewrite IH. intuition congruence.
Qed.

Lemma sort_by_In {A} (c : A -> A -> Q) l z : In z (sort_by c l) <-> In z l.
Proof.
  induction l as [|x l IH]; [reflexivity|].
  change (sort_by c (x :: l)) with (insert_by c x (sort_by c l)).
  rewrite insert_by_In, IH. cbn. intuition congruence.
Qed.

Lemma take_Sorted {A} (R : A -> A -> Prop) n l : Sorted R l -> Sorted R (take n l).
Proof.
  revert l. induction n as [|n IH]; intros l Hl; cbn; [constructor|].
  destruct l as [|x l]; [constructor|].
  inversion Hl as [|? ? Hs Hh]; subst. constructor; [now apply IH|].
  destruct l as [|y l]; [destruct n; constructor|].
  destruct n; cbn; constructor. now inversion Hh.
Qed.

Section SortBy.
Context {A : Type} (key : A -> Q).

Let cmp (a b : A) : Q := key b - key a.
Let ge (a b : A) : Prop := key b <= key a.

Lemma insert_by_HdRel x y l :
  ge y x -> HdRel ge y l -> HdRel ge y (insert_by cmp x l).
Proof.
  intros Hyx Hl. destruct l as [|z l]; cbn.
  - now constructor.
  - destruct (Qle_bool (cmp x z)); constructor; [exact Hyx|].
    now inversion Hl.
Qed.

Lemma insert_by_Sorted x l : Sorted ge l -> Sorted ge (insert_by cmp x l).
Proof.
  induction l as [|y l IH]; cbn; intros Hl.
  - repeat constructor.
  - destruct (Qle_bool (cmp x y)) eqn:E.
    + constructor; [exact Hl|]. constructor.
      apply Qle_bool_iff in E. unfold cmp in E. unfold ge. lra.
    + inversion Hl as [|? ? Hs Hh]; subst. constructor; [now apply IH|].
      apply insert_by_HdRel; [|exact Hh].
      assert (~ cmp x y <= 0) as Hn by (rewrite <- Qle_bool_iff, E; discriminate).
      unfold cmp in Hn. unfold ge. lra.
Qed.

Lemma sort_by_Sorted l : Sorted ge (sort_by cmp l).
Proof.
  induction l as [|x l IH]; [constructor|].
  change (sort_by cmp (x :: l)) with (insert_by cmp x (sort_by cmp l)).
  now apply insert_by_Sorted.
Qed.

End SortBy.

Lemma ranked_Sorted l : Sorted spread_ge (sort_by bySpreadDesc l).
Proof. exact (sort_by_Sorted SpreadOpportunity.spreadPercent l). Qed.

Lemma insert_by_Permutation {A} (c : A -> A -> Q) x l :
  Permutation (insert_by c x l) (x :: l).
Proof.
  induction l as [|y l IH]; cbn; [reflexivity|].
  destruct (Qle_bool (c x y)); [reflexivity|].
  rewrite IH. apply perm_swap.
Qed.

Lemma sort_by_Permutation {A} (c : A -> A -> Q) l : Permutation (sort_by c l) l.
Proof.
  induction l as [|x l IH]; [reflexivity|].
  change (sort_by c (x :: l)) with (insert_by c x (sort_by c l)).
  rewrite insert_by_Permutation. now constructor.
Qed.

Lemma StronglySorted_across {A} (R : A -> A -> Prop) l1 l2 x y :
  StronglySorted R (l1 ++ l2) -> In x l1 -> In y l2 -> R x y.
Proof.
  induction l1 as [|z l1 IH]; cbn; intros Hs Hx Hy; [destruct Hx|].
  inversion Hs as [|? ? Hrest Hall]; subst.
  destruct Hx as [-> | Hx]; [|now apply IH].
  apply (proj1 (List.Forall_forall _ _) Hall). apply in_or_app. now right.
Qed.

Lemma spread_ge_trans a b c : spread_ge a b -> spread_ge b c -> spread_ge a c.
Proof. unfold spread_ge. intros. lra. Qed.

Lemma ranked_StronglySorted l : StronglySorted spread_ge (sort_by bySpreadDesc l).
Proof.
  apply Sorted.Sorted_StronglySorted; [|apply ranked_Sorted].
  intros a b c. apply spread_ge_trans.
Qed.

Lemma take_In {A} n (l : list A) x : In x (take n l) -> In x l.
Proof.
  intros Hin. rewrite <- (take_drop n l). apply in_or_app. now left.
Qed.

(** An element of a ranked list is among the first [n], or the first [n]
    are [n] elements that all rank at least as high. *)
Lemma take_or_outranked {A} (R : A -> A -> Prop) n l x :
  StronglySorted R l -> In x l ->
  In x (take n l) \/ (length (take n l) = n /\ forall y, In y (take n l) -> R y x).
Proof.
  intros Hs Hin.
  assert (Hs' : StronglySorted R (take n l ++ drop n l)) by now rewrite take_drop.
  assert (Hin' : In x (take n l ++ drop n l)) by now rewrite take_drop.
  apply in_app_or in Hin' as [Hin' | Hin']; [now left | right]. split.
  - rewrite length_take. destruct (Nat.le_gt_cases n (length l)) as [Hle | Hgt]; [lia|].
    rewrite drop_ge in Hin' by lia. destruct Hin'.
  - intros y Hy. exact (StronglySorted_across R _ _ y x Hs' Hy Hin').
Qed.

(** C3.  Whatever the snapshot, [detectSpreadOpportunities] returns at most
    20 entries, and each entry's [spreadPercent] is at least that of the
    entry after it. *)
Theorem detectSpreadOpportunities_bounded_sorted now markets :
  (length (detectSpreadOpportunities now markets) <= 20)%nat /\
  Sorted spread_ge (detectSpreadOpportunities now markets).
Proof.
  unfold detectSpreadOpportunities. split.
  - rewrite length_take. lia.
  - apply take_Sorted, ranked_Sorted.
Qed.

(** *** The demo opportunities *)

Lemma mockSpreads_range now :
  Forall (fun o => 4 <= SpreadOpportunity.spreadPercent o /\
                   SpreadOpportunity.spreadPercent o <= 7) (mockSpreads now).
Proof. unfold mockSpreads. repeat (constructor; [cbn; lra|]). constructor. Qed.

Lemma detect_length now markets :
  length (detectSpreadOpportunities now markets)
  = Nat.min 20 (8 + length (crossOpportunities now markets)
                  + length (singlePlatformSpreads now markets)).
Proof.
  unfold detectSpreadOpportunities, allOpportunities.
  rewrite length_take, sort_by_length, !length_app. cbn [mockSpreads length]. lia.
Qed.

(** C10.  Whatever the snapshot, the array that is ranked and cut to 20 is
    the 8 demo opportunities, whose [spreadPercent] lies between 4.0 and
    7.0, followed by the cross-source and the single-platform entries.  The
    result therefore has 8 entries more than were detected, up to 20: at
    least 8, never none.  Every entry of the result is a demo entry or a
    detected one, and each of these is in the result unless the result is
    full with entries of at least its [spreadPercent].  With 14 listings
    whose books are inconsistent by six points, the 14 detected entries
    would all be reported without the demo entries; with them the result
    is seven demo entries followed by 13 detected ones, and
    [internal-spread-13] is left out. *)
Theorem mock_spreads_always_included now markets :
  length (mockSpreads now) = 8%nat /\
  Forall (fun o => 4 <= SpreadOpportunity.spreadPercent o /\
                   SpreadOpportunity.spreadPercent o <= 7) (mockSpreads now) /\
  length (detectSpreadOpportunities now markets)
  = Nat.min 20 (8 + length (crossOpportunities now markets)
                  + length (singlePlatformSpreads now markets)) /\
  (8 <= length (detectSpreadOpportunities now markets))%nat /\
  detectSpreadOpportunities now markets <> [] /\
  (forall o, In o (detectSpreadOpportunities now markets) ->
     In o (mockSpreads now ++ crossOpportunities now markets
           ++ singlePlatformSpreads now markets)) /\
  (forall o,
     In o (mockSpreads now ++ crossOpportunities now markets
           ++ singlePlatformSpreads now markets) ->
     In o (detectSpreadOpportunities now markets) \/
     (length (detectSpreadOpportunities now markets) = 20%nat /\
      forall kept, In kept (detectSpreadOpportunities now markets) ->
        SpreadOpportunity.spreadPercent o <= SpreadOpportunity.spreadPercent kept)) /\
  List.map SpreadOpportunity.id (detectedOnly now skewedMarkets)
  = List.map (fun i => ("internal-spread-" ++ JsStr.of_nat i)%string) (seq 0 14) /\
  List.map SpreadOpportunity.id (detectSpreadOpportunities now skewedMarkets)
  = skewedRanking /\
  In "internal-spread-13"
     (List.map SpreadOpportunity.id (detectedOnly now skewedMarkets)) /\
  ~ In "internal-spread-13"
       (List.map SpreadOpportunity.id (detectSpreadOpportunities now skewedMarkets)).
Proof.
  assert (Hlen : (8 <= length (detectSpreadOpportunities now markets))%nat)
    by (rewrite detect_length; lia).
  split; [reflexivity|].
  split; [apply mockSpreads_range|].
  split; [apply detect_length|].
  split; [exact Hlen|].
  split; [intros E; rewrite E in Hlen; cbn in Hlen; lia|].
  split.
  { intros o Ho. unfold detectSpreadOpportunities in Ho.
    apply take_In, sort_by_In in Ho. exact Ho. }
  split.
  { intros o Ho. unfold detectSpreadOpportunities.
    apply (take_or_outranked spread_ge); [apply ranked_StronglySorted|].
    apply sort_by_In. exact Ho. }
  split; [vm_compute; reflexivity|].
  split; [vm_compute; reflexivity|].
  split.
  - vm_compute. do 13 right. left. reflexivity.
  - vm_compute. intros H.
    repeat (destruct H as [H | H]; [discriminate H|]). exact H.
Qed.

Lemma mock_spreads_always_included_witness :
  exists o,
    SpreadOpportunity.id o = "mock-6" /\
    (In o (detectSpreadOpportunities sampleNow skewedMarkets) \/
     (length (detectSpreadOpportunities sampleNow skewedMarkets) = 20%nat /\
      forall kept, In kept (detectSpreadOpportunities sampleNow skewedMarkets) ->
        SpreadOpportunity.spreadPercent o <= SpreadOpportunity.spreadPercent kept)).
Proof.
  exists (nth 5 (mockSpreads sampleNow) sampleSpread). split; [reflexivity|].
  apply (proj1 (proj2 (proj2 (proj2 (proj2 (proj2 (proj2
           (mock_spreads_always_included sampleNow skewedMarkets)))))))).
  vm_compute. do 5 right. left. reflexivity.
Defined.

(** *** Matching *)

Lemma findBestMatch_from usedKalshi pm kalshiMarkets bestMatch kl sim :
  fold_left (bestMatchStep usedKalshi pm) kalshiMarkets bestMatch = Some (kl, sim) ->
  bestMatch = Some (kl, sim) \/
  ((Market.id kl ∉ usedKalshi) /\ In kl kalshiMarkets /\
   sim = calculateSimilarity (Market.title pm) (Market.title kl) /\ 0.3 < sim).
Proof.
  revert bestMatch. induction kalshiMarkets as [|k rest IH]; intros bestMatch H; cbn in H.
  - now left.
  - apply IH in H as [H | (Hu & Hin & Hs & Hgt)].
    + unfold bestMatchStep in H. case_bool_decide as Hused; [now left|].
      destruct (JsNum.gtb (calculateSimilarity (Market.title pm) (Market.title k)) 0.3
                && match bestMatch with
                   | Some best =>
                       JsNum.gtb (calculateSimilarity (Market.title pm) (Market.title k))
                                 (snd best)
                   | None => true
                   end) eqn:E; [|now left].
      injection H as <- <-. right.
      apply andb_true_iff in E as [E _]. apply JsNum_gtb_gt in E.
      repeat split; [exact Hused | now left | exact E].
    + right. repeat split; [exact Hu | now right | exact Hs | exact Hgt].
Qed.

Lemma findBestMatch_unused usedKalshi pm kalshiMarkets kl sim :
  findBestMatch usedKalshi pm kalshiMarkets = Some (kl, sim) ->
  (Market.id kl ∉ usedKalshi) /\ In kl kalshiMarkets /\
  sim = calculateSimilarity (Market.title pm) (Market.title kl) /\ 0.3 < sim.
Proof.
  intros H. unfold findBestMatch in H. apply findBestMatch_from in H.
  destruct H as [H | H]; [discriminate H | exact H].
Qed.

Lemma matchStep_inv kalshiMarkets processed acc pm :
  matchInv processed acc -> matchInv (processed ++ [pm]) (matchStep kalshiMarkets acc pm).
Proof.
  destruct acc as [matches usedKalshi]. intros (Hboth & Hused & Hnodup & Hsub).
  cbn in Hboth, Hused, Hnodup, Hsub.
  assert (Hkeep : matchInv (processed ++ [pm]) (matches, usedKalshi)).
  { repeat split; try assumption. cbn. rewrite map_app.
    now apply sublist_inserts_r. }
  unfold matchStep.
  destruct (findBestMatch usedKalshi pm kalshiMarkets) as [[market sim]|] eqn:Ebest;
    [|exact Hkeep].
  destruct (JsNum.gtb sim 0.4); [|exact Hkeep].
  apply findBestMatch_unused in Ebest as (Hfresh & _).
  unfold matchInv, matchedKalshiIds, matchedPolymarketIds. cbn.
  rewrite !omap_app, map_app. cbn.
  split; [|split; [|split]].
  - apply Forall_app. split; [exact Hboth|].
    constructor; [|constructor]. split; eexists; reflexivity.
  - intros x Hx. apply elem_of_app in Hx as [Hx | Hx].
    + apply elem_of_union_r, Hused, Hx.
    + apply list_elem_of_singleton in Hx as ->. apply elem_of_union_l.
      now apply elem_of_singleton.
  - apply NoDup_app. split; [exact Hnodup|]. split; [|apply NoDup_singleton].
    intros x Hx Hx'. apply list_elem_of_singleton in Hx' as ->.
    apply Hfresh, Hused, Hx.
  - now apply sublist_app.
Qed.

Lemma matchLoop_inv kalshiMarkets polymarketMarkets processed acc :
  matchInv processed acc ->
  matchInv (processed ++ polymarketMarkets)
           (fold_left (matchStep kalshiMarkets) polymarketMarkets acc).
Proof.
  revert processed acc.
  induction polymarketMarkets as [|pm rest IH]; intros processed acc Hinv; cbn.
  - now rewrite app_nil_r.
  - replace (processed ++ pm :: rest) with ((processed ++ [pm]) ++ rest)
      by now rewrite <- app_assoc.
    apply IH, matchStep_inv, Hinv.
Qed.

Lemma findMatchingMarkets_inv markets :
  Forall both_sides (findMatchingMarkets markets) /\
  NoDup (matchedKalshiIds (findMatchingMarkets markets)) /\
  (matchedPolymarketIds (findMatchingMarkets markets) `sublist_of` polymarketIds markets).
Proof.
  unfold findMatchingMarkets, polymarketIds.
  set (pms := List.filter (fun m => Platform_eqb (Market.platform m) polymarket) markets).
  set (kls := List.filter (fun m => Platform_eqb (Market.platform m) kalshi) markets).
  destruct (matchLoop_inv kls pms [] ([], ∅)) as (Hboth & _ & Hnodup & Hsub).
  - split; [constructor|]. split; [intros x Hx; inversion Hx|].
    split; constructor.
  - split; [exact Hboth|]. split; [exact Hnodup | exact Hsub].
Qed.

(** C7.  Every pair that [findMatchingMarkets] returns has both sides; no
    Kalshi id occurs in two pairs; the Polymarket sides are taken from the
    Polymarket records of the snapshot in order, each record at most once, so
    that no Polymarket id occurs in two pairs when the snapshot holds each
    Polymarket id once. *)
Theorem findMatchingMarkets_injective markets :
  Forall both_sides (findMatchingMarkets markets) /\
  NoDup (matchedKalshiIds (findMatchingMarkets markets)) /\
  (matchedPolymarketIds (findMatchingMarkets markets) `sublist_of` polymarketIds markets) /\
  (NoDup (polymarketIds markets) ->
   NoDup (matchedPolymarketIds (findMatchingMarkets markets))).
Proof.
  destruct (findMatchingMarkets_inv markets) as (Hboth & Hnodup & Hsub).
  repeat split; try assumption.
  intros Hids. exact (sublist_NoDup _ _ Hids Hsub).
Qed.

Lemma findMatchingMarkets_injective_witness :
  NoDup (matchedPolymarketIds
           (findMatchingMarkets [pmBitcoin; klBitcoin; pmBitcoin2; klBitcoin2])).
Proof.
  apply (proj2 (proj2 (proj2
           (findMatchingMarkets_injective [pmBitcoin; klBitcoin; pmBitcoin2; klBitcoin2])))).
  vm_compute. apply (bool_decide_unpack _). vm_compute. exact I.
Defined.

(** *** Reconnection *)

Lemma scheduleReconnect_below st :
  (reconnectAttempts st < MAX_RECONNECT_ATTEMPTS)%nat ->
  scheduleReconnect st
  = {| wsConnection := wsConnection st;
       reconnectAttempts := S (reconnectAttempts st);
       timers := timers st ++ [(RECONNECT_DELAY * Z.of_nat (S (reconnectAttempts st)))%Z] |}.
Proof.
  intros Hlt. unfold scheduleReconnect.
  destruct (Nat.leb_spec MAX_RECONNECT_ATTEMPTS (reconnectAttempts st)); [lia | reflexivity].
Qed.

Lemma scheduleReconnect_at_cap st :
  (MAX_RECONNECT_ATTEMPTS <= reconnectAttempts st)%nat -> scheduleReconnect st = st.
Proof.
  intros Hge. unfold scheduleReconnect.
  destruct (Nat.leb_spec MAX_RECONNECT_ATTEMPTS (reconnectAttempts st)); [reflexivity | lia].
Qed.

Lemma feedStep_at_cap st ev :
  (MAX_RECONNECT_ATTEMPTS <= reconnectAttempts st)%nat -> ev <> EvOpen ->
  reconnectAttempts (feedStep st ev) = reconnectAttempts st /\
  (timers (feedStep st ev) = timers st \/ timers (feedStep st ev) = drop 1 (timers st)).
Proof.
  intros Hcap Hev. destruct ev; cbn; try congruence.
  - unfold connectWebSocket.
    destruct (wsConnection st) as [[]|]; cbn; auto.
  - unfold onClose. rewrite scheduleReconnect_at_cap by exact Hcap. cbn. auto.
  - auto.
  - destruct (timers st) as [|d pending] eqn:Et; [auto|].
    unfold connectWebSocket. cbn.
    destruct (wsConnection st) as [[]|]; cbn; auto.
Qed.

Lemma feedRun_at_cap st evs :
  (MAX_RECONNECT_ATTEMPTS <= reconnectAttempts st)%nat -> no_open evs ->
  reconnectAttempts (feedRun st evs) = reconnectAttempts st /\
  exists fired, timers (feedRun st evs) = drop fired (timers st).
Proof.
  revert st. induction evs as [|ev evs IH]; intros st Hcap Hno.
  - split; [reflexivity | now exists 0%nat].
  - inversion Hno as [|? ? Hev Hrest]; subst.
    destruct (feedStep_at_cap st ev Hcap Hev) as [Hn Ht].
    destruct (IH (feedStep st ev)) as [Hn' [fired Hfired]]; [lia | exact Hrest |].
    cbn [feedRun fold_left]. fold (feedRun (feedStep st ev) evs).
    split; [lia|].
    destruct Ht as [Ht | Ht]; rewrite Ht in Hfired.
    + now exists fired.
    + exists (1 + fired)%nat. now rewrite Hfired, drop_drop.
Qed.

(** C5 (as amended).  Below the cap [scheduleReconnect] raises the attempt
    counter by one and sets a timer of 5000 ms times the new counter; the
    ["open"] handler resets the counter to zero; with the counter at the cap
    of 5 [scheduleReconnect] does nothing; and from then on, as long as no
    connection opens, no event changes the counter or sets a timer: the
    pending timers only fire. *)
Theorem reconnect_backoff_and_cap :
  (forall st, (reconnectAttempts st < MAX_RECONNECT_ATTEMPTS)%nat ->
     scheduleReconnect st
     = {| wsConnection := wsConnection st;
          reconnectAttempts := S (reconnectAttempts st);
          timers := timers st ++ [(5000 * Z.of_nat (S (reconnectAttempts st)))%Z] |}) /\
  (forall st, reconnectAttempts (onOpen st) = 0%nat) /\
  (forall st, (5 <= reconnectAttempts st)%nat -> scheduleReconnect st = st) /\
  (forall st evs, (5 <= reconnectAttempts st)%nat -> no_open evs ->
     reconnectAttempts (feedRun st evs) = reconnectAttempts st /\
     exists fired, timers (feedRun st evs) = drop fired (timers st)).
Proof.
  split; [exact scheduleReconnect_below|].
  split; [reflexivity|].
  split; [exact scheduleReconnect_at_cap | exact feedRun_at_cap].
Qed.

Lemma reconnect_backoff_and_cap_witness :
  reconnectAttempts
    (feedRun (feedRun initialFeedConn fiveFailures) [EvTimer; EvClose; EvError; EvClose])
  = reconnectAttempts (feedRun initialFeedConn fiveFailures) /\
  exists fired,
    timers (feedRun (feedRun initialFeedConn fiveFailures)
                    [EvTimer; EvClose; EvError; EvClose])
    = drop fired (timers (feedRun initialFeedConn fiveFailures)).
Proof.
  apply (proj2 (proj2 (proj2 reconnect_backoff_and_cap))
           (feedRun initialFeedConn fiveFailures) [EvTimer; EvClose; EvError; EvClose]).
  - vm_compute. lia.
  - unfold no_open. repeat constructor; discriminate.
Defined.

(** C5 fails as stated: after five closes in a row the counter is 5 and the
    fifth timer (25000 ms) is pending; when that timer fires and the new
    connection opens, the counter is back at zero, and the next close
    schedules a reconnect again, after 5000 ms. *)
Lemma reconnect_resumes_after_cap :
  reconnectAttempts (feedRun initialFeedConn fiveFailures) = MAX_RECONNECT_ATTEMPTS /\
  timers (feedRun initialFeedConn fiveFailures) = [25000%Z] /\
  feedRun initialFeedConn (fiveFailures ++ [EvTimer; EvOpen; EvClose])
  = {| wsConnection := Some CLOSED; reconnectAttempts := 1; timers := [5000%Z] |} /\
  scheduleReconnect (feedRun initialFeedConn (fiveFailures ++ [EvTimer; EvOpen]))
  <> feedRun initialFeedConn (fiveFailures ++ [EvTimer; EvOpen]).
Proof.
  split; [vm_compute; reflexivity|].
  split; [vm_compute; reflexivity|].
  split; [vm_compute; reflexivity|].
  vm_compute. discriminate.
Qed.

(** ** Further properties of the live-feed module *)

(** *** Patches *)

Lemma applyTrade_same_identity market outcome newPrice :
  same_identity market (applyTrade market outcome newPrice).
Proof.
  unfold applyTrade, same_identity.
  destruct (String.eqb outcome "Yes" || String.eqb outcome "yes"); cbn; tauto.
Qed.

Lemma same_identity_refl m : same_identity m m.
Proof. unfold same_identity. tauto. Qed.

(** What [handleRTDSMessage] does, in one of two shapes: nothing, or the
    replacement of one cached record by its patched version. *)
Lemma handleRTDSMessage_cases message st :
  handleRTDSMessage message st = st \/
  exists p s marketId market newPrice,
    RTDSMessage.payload message = Some p /\
    TradePayload.market_slug p = s /\
    slugToMarketId st !! s = Some marketId /\
    marketCache st !! marketId = Some market /\
    TradePayload.price p = Some newPrice /\ 0 < newPrice /\ newPrice < 1 /\
    handleRTDSMessage message st
    = {| marketCache :=
           <[marketId := applyTrade market (TradePayload.outcome p) newPrice]> (marketCache st);
         assetToMarketMap := assetToMarketMap st;
         slugToMarketId := slugToMarketId st |}.
Proof.
  unfold handleRTDSMessage.
  destruct (String.eqb (RTDSMessage.topic message) "activity"
            && String.eqb (RTDSMessage.type message) "trades"); [|now left].
  destruct (RTDSMessage.payload message) as [p|]; [|now left].
  destruct (nonempty (TradePayload.market_slug p) && JsNum.truthy (TradePayload.price p));
    [|now left].
  destruct (slugToMarketId st !! TradePayload.market_slug p) as [marketId|] eqn:Es;
    [|now left].
  destruct (nonempty marketId); [|now left].
  destruct (marketCache st !! marketId) as [market|] eqn:Em; [|now left].
  destruct (TradePayload.price p) as [newPrice|] eqn:Ep; [|now left].
  destruct (JsNum.gtb newPrice 0 && JsNum.ltb newPrice 1) eqn:E; [|now left].
  apply andb_true_iff in E as [E0 E1].
  apply JsNum_gtb_gt in E0. apply JsNum_ltb_lt in E1.
  right. exists p, (TradePayload.market_slug p), marketId, market, newPrice.
  repeat split; try assumption; reflexivity.
Qed.

Lemma handleRTDSMessage_dom message st :
  dom (marketCache (handleRTDSMessage message st)) = dom (marketCache st).
Proof.
  destruct (handleRTDSMessage_cases message st)
    as [-> | (p & s & marketId & market & newPrice & _ & _ & _ & Hm & _ & _ & _ & ->)];
    [reflexivity|].
  cbn. rewrite dom_insert_L. apply subseteq_union_1_L, singleton_subseteq_l.
  exact (elem_of_dom_2 _ _ _ Hm).
Qed.

(** X1.  A trade message never changes which ids are cached, nor the slug
    and token indexes, nor any field of a record other than its two
    prices. *)
Theorem handleRTDSMessage_keeps_identity message st :
  dom (marketCache (handleRTDSMessage message st)) = dom (marketCache st) /\
  slugToMarketId (handleRTDSMessage message st) = slugToMarketId st /\
  assetToMarketMap (handleRTDSMessage message st) = assetToMarketMap st /\
  forall key m, marketCache st !! key = Some m ->
    exists m', marketCache (handleRTDSMessage message st) !! key = Some m' /\
               same_identity m m'.
Proof.
  split; [apply handleRTDSMessage_dom|].
  destruct (handleRTDSMessage_cases message st)
    as [-> | (p & s & marketId & market & newPrice & _ & _ & _ & Hm & _ & _ & _ & ->)].
  - repeat split; try reflexivity.
    intros key m Hkey. exists m. split; [exact Hkey | apply same_identity_refl].
  - cbn. split; [reflexivity|split; [reflexivity|]].
    intros key m Hkey. rewrite lookup_insert. case_decide as Hk.
    + subst key. rewrite Hm in Hkey. injection Hkey as <-.
      eexists. split; [reflexivity | apply applyTrade_same_identity].
    + exists m. split; [exact Hkey | apply same_identity_refl].
Qed.

Lemma handleRTDSMessage_accepts message st p marketId market newPrice :
  RTDSMessage.topic message = "activity" ->
  RTDSMessage.type message = "trades" ->
  RTDSMessage.payload message = Some p ->
  nonempty (TradePayload.market_slug p) = true ->
  slugToMarketId st !! TradePayload.market_slug p = Some marketId ->
  nonempty marketId = true ->
  marketCache st !! marketId = Some market ->
  TradePayload.price p = Some newPrice ->
  0 < newPrice -> newPrice < 1 ->
  handleRTDSMessage message st
  = {| marketCache :=
         <[marketId := applyTrade market (TradePayload.outcome p) newPrice]> (marketCache st);
       assetToMarketMap := assetToMarketMap st;
       slugToMarketId := slugToMarketId st |}.
Proof.
  intros Htopic Htype Hp Hslug Hidx Hid Hm Hprice H0 H1.
  unfold handleRTDSMessage.
  rewrite Htopic, Htype, Hp, Hslug, Hprice, Hidx, Hid, Hm.
  assert (Ht : JsNum.truthy (Some newPrice) = true).
  { cbn. apply negb_true_iff. destruct (Qeq_bool newPrice 0) eqn:E; [|reflexivity].
    apply Qeq_bool_iff in E. lra. }
  assert (Hr : JsNum.gtb newPrice 0 && JsNum.ltb newPrice 1 = true).
  { apply andb_true_iff. split; [now apply JsNum_gtb_gt | now apply JsNum_ltb_lt]. }
  change (String.eqb "activity" "activity" && String.eqb "trades" "trades") with true.
  cbn iota. rewrite Ht, Hr. reflexivity.
Qed.

Lemma applyTrade_side market outcome newPrice :
  Market.yesPrice (applyTrade market outcome newPrice)
  + Market.noPrice (applyTrade market outcome newPrice) == 1 /\
  (if String.eqb outcome "Yes" || String.eqb outcome "yes"
   then Market.yesPrice (applyTrade market outcome newPrice) = newPrice
   else Market.noPrice (applyTrade market outcome newPrice) = newPrice).
Proof.
  unfold applyTrade.
  destruct (String.eqb outcome "Yes" || String.eqb outcome "yes"); cbn;
    (split; [ring | reflexivity]).
Qed.

(** X2.  A trade message on the topic [activity] of type [trades], for a
    slug that the index maps to a cached record and at a price strictly
    between 0 and 1, sets that record's price for the traded outcome to the
    trade price and the other price to its complement, and leaves every
    other record as it was. *)
Theorem handleRTDSMessage_applies_trade message st p marketId market newPrice :
  RTDSMessage.topic message = "activity" ->
  RTDSMessage.type message = "trades" ->
  RTDSMessage.payload message = Some p ->
  nonempty (TradePayload.market_slug p) = true ->
  slugToMarketId st !! TradePayload.market_slug p = Some marketId ->
  nonempty marketId = true ->
  marketCache st !! marketId = Some market ->
  TradePayload.price p = Some newPrice ->
  0 < newPrice -> newPrice < 1 ->
  let st' := handleRTDSMessage message st in
  exists market',
    marketCache st' !! marketId = Some market' /\
    Market.yesPrice market' + Market.noPrice market' == 1 /\
    (if String.eqb (TradePayload.outcome p) "Yes" || String.eqb (TradePayload.outcome p) "yes"
     then Market.yesPrice market' = newPrice
     else Market.noPrice market' = newPrice) /\
    forall key, key <> marketId -> marketCache st' !! key = marketCache st !! key.
Proof.
  intros Htopic Htype Hp Hslug Hidx Hid Hm Hprice H0 H1 st'. subst st'.
  rewrite (handleRTDSMessage_accepts message st p marketId market newPrice) by assumption.
  cbn [marketCache].
  exists (applyTrade market (TradePayload.outcome p) newPrice).
  split; [apply lookup_insert_eq|].
  destruct (applyTrade_side market (TradePayload.outcome p) newPrice) as [Hsum Hside].
  split; [exact Hsum|]. split; [exact Hside|].
  intros key Hne. now apply lookup_insert_ne.
Qed.

Lemma handleRTDSMessage_applies_trade_witness :
  exists market',
    marketCache (handleRTDSMessage acceptedTrade sampleCache) !! "pm-1" = Some market' /\
    Market.yesPrice market' + Market.noPrice market' == 1 /\
    Market.yesPrice market' = 0.6 /\
    forall key, key <> "pm-1" ->
      marketCache (handleRTDSMessage acceptedTrade sampleCache) !! key
      = marketCache sampleCache !! key.
Proof.
  apply (handleRTDSMessage_applies_trade acceptedTrade sampleCache
           (TradePayload.mk "btc-150k" "Yes" (Some 0.6) (Some 10) "BUY" (Some 0))
           "pm-1" sampleMarket 0.6).
  - reflexivity.
  - reflexivity.
  - reflexivity.
  - reflexivity.
  - vm_compute. reflexivity.
  - reflexivity.
  - vm_compute. reflexivity.
  - reflexivity.
  - lra.
  - lra.
Defined.

(** *** Invariants of the maps *)

Lemma prefix_pm s : String.prefix "pm-" ("pm-" ++ s) = true.
Proof. cbn. now destruct s. Qed.

Lemma polymarketToMarket_shape title description category volume p :
  let m := polymarketToMarket title description category volume p in
  Market.platform m = polymarket /\ String.prefix "pm-" (Market.id m) = true /\
  nonempty (Market.id m) = true /\ in_unit m.
Proof.
  cbv zeta. split; [reflexivity|]. split; [apply prefix_pm|]. split; [reflexivity|].
  apply clamped_in_unit, polymarketToMarket_clamped.
Qed.

Lemma fold_left_inv {A B} (P : A -> Prop) (f : A -> B -> A) l a :
  (forall a b, P a -> P (f a b)) -> P a -> P (fold_left f l a).
Proof.
  intros Hf. revert a. induction l as [|b l IH]; intros a Ha; cbn; [exact Ha|].
  apply IH, Hf, Ha.
Qed.

(** A property of the loop state that storing one adapter-made record keeps
    is kept by both fetch loops. *)
Section AdapterLoops.
Variable Inv : list Market.t * FeedCache -> Prop.
Hypothesis Inv_ingest :
  forall acc market title description category volume,
    Inv acc ->
    Inv (fst acc ++ [polymarketToMarket title description category volume market],
         ingestMarket market
           (polymarketToMarket title description category volume market) (snd acc)).

Lemma directStep_inv acc market : Inv acc -> Inv (directStep acc market).
Proof.
  intros Hacc. unfold directStep.
  destruct (negb (PolymarketMarketData.active market) || PolymarketMarketData.closed market);
    [exact Hacc|].
  destruct (PolymarketMarketData.pricesUnreadable market); [exact Hacc|].
  now apply Inv_ingest.
Qed.

Lemma eventMarketStep_inv event acc market :
  Inv acc -> Inv (eventMarketStep event acc market).
Proof.
  intros Hacc. unfold eventMarketStep.
  destruct (negb (PolymarketMarketData.active market) || PolymarketMarketData.closed market);
    [exact Hacc|].
  now apply Inv_ingest.
Qed.

Lemma eventStep_inv acc event : Inv acc -> Inv (eventStep acc event).
Proof.
  intros Hacc. unfold eventStep.
  destruct (negb (PolymarketEvent.active event) || PolymarketEvent.closed event);
    [exact Hacc|].
  apply (fold_left_inv Inv); [apply eventMarketStep_inv | exact Hacc].
Qed.

Lemma fetchPolymarketMarketsDirect_inv payload st :
  Inv ([], st) -> Inv (fetchPolymarketMarketsDirect payload st).
Proof.
  intros Hst. destruct payload as [data|]; cbn; [|exact Hst].
  unfold ingestDirect. apply (fold_left_inv Inv); [apply directStep_inv | exact Hst].
Qed.

Lemma fetchAllPolymarketEvents_inv payload st :
  Inv ([], st) -> Inv (fetchAllPolymarketEvents payload st).
Proof.
  intros Hst. destruct payload as [events|]; cbn; [|exact Hst].
  unfold ingestEvents. apply (fold_left_inv Inv); [apply eventStep_inv | exact Hst].
Qed.

End AdapterLoops.

Lemma ingestMarket_feed_ok acc market title description category volume :
  feed_ok (snd acc) ->
  feed_ok (snd (fst acc ++ [polymarketToMarket title description category volume market],
                ingestMarket market
                  (polymarketToMarket title description category volume market) (snd acc))).
Proof.
  set (md := polymarketToMarket title description category volume market).
  destruct (polymarketToMarket_shape title description category volume market)
    as (Hplat & Hpre & Hne & Hunit). fold md in Hplat, Hpre, Hne, Hunit.
  intros (Hkeys & Hslugs & Hprices).
  split; [|split]; cbn [fst snd].
  - intros key m. cbn. rewrite lookup_insert. case_decide as Hk.
    + intros [= <-]. subst key. auto.
    + apply Hkeys.
  - intros s key. cbn [ingestMarket slugToMarketId marketCache].
    assert (Hmono : forall k, is_Some (marketCache (snd acc) !! k) ->
                      is_Some (<[Market.id md := md]> (marketCache (snd acc)) !! k)).
    { intros k Hk. rewrite lookup_insert. case_decide; [eexists; reflexivity | exact Hk]. }
    destruct (PolymarketMarketData.slug market) as [|c rest] eqn:Es.
    + intros Hs. destruct (Hslugs s key Hs) as (? & ? & ?). auto.
    + rewrite lookup_insert. case_decide as Hk.
      * intros [= <-]. subst s. split; [reflexivity|]. split; [exact Hne|].
        rewrite lookup_insert_eq. eexists; reflexivity.
      * intros Hs. destruct (Hslugs s key Hs) as (? & ? & ?). auto.
  - now apply ingestMarket_cache_all.
Qed.

Lemma ingestMarket_keeps_keys st acc market md :
  keeps_keys st acc -> keeps_keys st (fst acc ++ [md], ingestMarket market md (snd acc)).
Proof.
  intros Hacc key Hkey. cbn. rewrite lookup_insert.
  case_decide; [eexists; reflexivity | apply Hacc, Hkey].
Qed.

Lemma ingestMarket_pushed_cached acc market md :
  pushed_cached acc -> pushed_cached (fst acc ++ [md], ingestMarket market md (snd acc)).
Proof.
  intros Hacc m Hin. cbn. rewrite lookup_insert.
  case_decide; [eexists; reflexivity|].
  apply in_app_or in Hin as [Hin | [<- | []]]; [apply Hacc, Hin | congruence].
Qed.

(** After the two fetches, in either order: every record that either fetch
    returned is a key of the cache, every key held before is still held, and
    the maps are fine if they were. *)
Lemma fetchBoth_ok eventsPayload directPayload directFirst st :
  let '(eventsMarkets, directMarkets, fetched) :=
    fetchBoth eventsPayload directPayload directFirst st in
  (forall m, In m (eventsMarkets ++ directMarkets) ->
     is_Some (marketCache fetched !! Market.id m)) /\
  (forall key, is_Some (marketCache st !! key) -> is_Some (marketCache fetched !! key)) /\
  (feed_ok st -> feed_ok fetched).
Proof.
  assert (Hpd : forall payload c, pushed_cached (fetchPolymarketMarketsDirect payload c)).
  { intros payload c. apply fetchPolymarketMarketsDirect_inv; [|intros m []].
    intros; now apply ingestMarket_pushed_cached. }
  assert (Hpe : forall payload c, pushed_cached (fetchAllPolymarketEvents payload c)).
  { intros payload c. apply fetchAllPolymarketEvents_inv; [|intros m []].
    intros; now apply ingestMarket_pushed_cached. }
  assert (Hkd : forall payload c, keeps_keys c (fetchPolymarketMarketsDirect payload c)).
  { intros payload c. apply fetchPolymarketMarketsDirect_inv; [|intros key Hkey; exact Hkey].
    intros; now apply ingestMarket_keeps_keys. }
  assert (Hke : forall payload c, keeps_keys c (fetchAllPolymarketEvents payload c)).
  { intros payload c. apply fetchAllPolymarketEvents_inv; [|intros key Hkey; exact Hkey].
    intros; now apply ingestMarket_keeps_keys. }
  assert (Hfd : forall payload c, feed_ok c ->
                  feed_ok (snd (fetchPolymarketMarketsDirect payload c))).
  { intros payload c Hc.
    apply (fetchPolymarketMarketsDirect_inv (fun acc => feed_ok (snd acc))); [|exact Hc].
    intros; now apply ingestMarket_feed_ok. }
  assert (Hfe : forall payload c, feed_ok c ->
                  feed_ok (snd (fetchAllPolymarketEvents payload c))).
  { intros payload c Hc.
    apply (fetchAllPolymarketEvents_inv (fun acc => feed_ok (snd acc))); [|exact Hc].
    intros; now apply ingestMarket_feed_ok. }
  unfold fetchBoth. destruct directFirst.
  - set (d := fetchPolymarketMarketsDirect directPayload st).
    set (e := fetchAllPolymarketEvents eventsPayload (snd d)).
    split; [|split].
    + intros m Hin. apply in_app_or in Hin as [Hin | Hin].
      * apply (Hpe eventsPayload (snd d)), Hin.
      * apply (Hke eventsPayload (snd d)), (Hpd directPayload st), Hin.
    + intros key Hkey. apply (Hke eventsPayload (snd d)), (Hkd directPayload st), Hkey.
    + intros Hst. apply Hfe, Hfd, Hst.
  - set (e := fetchAllPolymarketEvents eventsPayload st).
    set (d := fetchPolymarketMarketsDirect directPayload (snd e)).
    split; [|split].
    + intros m Hin. apply in_app_or in Hin as [Hin | Hin].
      * apply (Hkd directPayload (snd e)), (Hpe eventsPayload st), Hin.
      * apply (Hpd directPayload (snd e)), Hin.
    + intros key Hkey. apply (Hkd directPayload (snd e)), (Hke eventsPayload st), Hkey.
    + intros Hst. apply Hfd, Hfe, Hst.
Qed.

Lemma backfill_present markets cache :
  (forall m, In m markets -> is_Some (cache !! Market.id m)) ->
  backfill markets cache = cache.
Proof.
  unfold backfill. induction markets as [|m rest IH]; intros Hall; cbn; [reflexivity|].
  destruct (Hall m (or_introl eq_refl)) as [m' ->].
  apply IH. intros m0 Hin. apply Hall. now right.
Qed.

Lemma feed_ok_empty :
  feed_ok {| marketCache := ∅; assetToMarketMap := ∅; slugToMarketId := ∅ |}.
Proof.
  split; [|split]; intros ? ?; cbn; rewrite lookup_empty; discriminate.
Qed.

Lemma fetchBoth_backfill eventsPayload directPayload directFirst st :
  let '(eventsMarkets, directMarkets, fetched) :=
    fetchBoth eventsPayload directPayload directFirst st in
  backfill (eventsMarkets ++ directMarkets) (marketCache fetched) = marketCache fetched.
Proof.
  pose proof (fetchBoth_ok eventsPayload directPayload directFirst st) as H.
  destruct (fetchBoth eventsPayload directPayload directFirst st)
    as [[eventsMarkets directMarkets] fetched].
  destruct H as [Hpushed _]. now apply backfill_present.
Qed.

(** X3.  In [getPolymarketMarkets] the loop that stores the fetched records
    whose id is not cached yet never stores anything: whatever the two
    payloads, their order of arrival and the maps before, every record that
    the two fetches return is already a key of [marketCache]. *)
Theorem backfill_never_stores eventsPayload directPayload directFirst st :
  let '(eventsMarkets, directMarkets, fetched) :=
    fetchBoth eventsPayload directPayload directFirst st in
  backfill (eventsMarkets ++ directMarkets) (marketCache fetched) = marketCache fetched.
Proof. apply fetchBoth_backfill. Qed.

Lemma getPolymarketMarkets_cache now eventsPayload directPayload directFirst st :
  feedCache (snd (getPolymarketMarkets now eventsPayload directPayload directFirst st))
  = if refreshDue now st
    then snd (fetchBoth eventsPayload directPayload directFirst (feedCache st))
    else feedCache st.
Proof.
  unfold getPolymarketMarkets. destruct (refreshDue now st); [|reflexivity].
  pose proof (fetchBoth_backfill eventsPayload directPayload directFirst (feedCache st))
    as Hback.
  destruct (fetchBoth eventsPayload directPayload directFirst (feedCache st))
    as [[eventsMarkets directMarkets] fetched].
  cbn. rewrite Hback. now destruct fetched.
Qed.

Lemma feedOp_cache st op :
  feedCache (feedOp st op)
  = match op with
    | OpRefresh now eventsPayload directPayload directFirst =>
        if refreshDue now st
        then snd (fetchBoth eventsPayload directPayload directFirst (feedCache st))
        else feedCache st
    | OpMessage message => handleRTDSMessage message (feedCache st)
    | OpEvent _ => feedCache st
    end.
Proof.
  destruct op; cbn [feedOp feedCache]; [apply getPolymarketMarkets_cache | | ]; reflexivity.
Qed.

Lemma handleRTDSMessage_feed_ok message st :
  feed_ok st -> feed_ok (handleRTDSMessage message st).
Proof.
  intros (Hkeys & Hslugs & Hprices).
  split; [|split]; [| |now apply handleRTDSMessage_in_unit].
  - destruct (handleRTDSMessage_cases message st)
      as [-> | (p & s & marketId & market & newPrice & _ & _ & _ & Hm & _ & _ & _ & ->)];
      [exact Hkeys|].
    intros key m. cbn. rewrite lookup_insert. case_decide as Hk; [|apply Hkeys].
    intros [= <-]. subst key. destruct (Hkeys marketId market Hm) as (Hid & Hplat & Hpre).
    destruct (applyTrade_same_identity market (TradePayload.outcome p) newPrice)
      as (Hid' & _ & _ & Hplat' & _).
    split; [congruence|]. split; [congruence | exact Hpre].
  - destruct (handleRTDSMessage_cases message st)
      as [-> | (p & s & marketId & market & newPrice & _ & _ & _ & Hm & _ & _ & _ & ->)];
      [exact Hslugs|].
    intros s' key Hs. cbn in Hs. destruct (Hslugs s' key Hs) as (Hs1 & Hs2 & Hs3).
    split; [exact Hs1|]. split; [exact Hs2|]. cbn. rewrite lookup_insert.
    case_decide; [eexists; reflexivity | exact Hs3].
Qed.

Lemma feedOp_feed_ok st op : feed_ok (feedCache st) -> feed_ok (feedCache (feedOp st op)).
Proof.
  intros Hst. rewrite feedOp_cache. destruct op as [now e d b | message | ev].
  - destruct (refreshDue now st); [|exact Hst].
    pose proof (fetchBoth_ok e d b (feedCache st)) as H.
    destruct (fetchBoth e d b (feedCache st)) as [[em dm] fetched].
    destruct H as (_ & _ & H). now apply H.
  - now apply handleRTDSMessage_feed_ok.
  - exact Hst.
Qed.

Lemma feedOps_feed_ok ops : feed_ok (feedCache (feedOps initialFeedState ops)).
Proof.
  unfold feedOps.
  apply (fold_left_inv (fun st => feed_ok (feedCache st))).
  - intros st op. apply feedOp_feed_ok.
  - apply feed_ok_empty.
Qed.

(** *** The clamping invariant across the live-feed module *)

Lemma clamped_within_unit m : clamped m -> within_unit m.
Proof. unfold clamped, within_unit. intros [[? ?] [? ?]]. repeat split; lra. Qed.

Lemma in_unit_within_unit m : in_unit m -> within_unit m.
Proof. unfold in_unit, within_unit. intros [[? ?] [? ?]]. repeat split; lra. Qed.

Lemma applyTrade_within_unit market outcome newPrice :
  0 < newPrice -> newPrice < 1 -> within_unit (applyTrade market outcome newPrice).
Proof.
  intros H0 H1. unfold applyTrade, within_unit.
  destruct (String.eqb outcome "Yes" || String.eqb outcome "yes"); cbn;
    repeat split; lra.
Qed.

Lemma ingestMarket_loop_clamped acc market title description category volume :
  loop_clamped acc ->
  loop_clamped (fst acc ++ [polymarketToMarket title description category volume market],
                ingestMarket market
                  (polymarketToMarket title description category volume market) (snd acc)).
Proof.
  intros [Hpushed Hcache]. split; cbn [fst snd].
  - apply Forall_app. split; [exact Hpushed|].
    constructor; [apply polymarketToMarket_clamped | constructor].
  - apply ingestMarket_cache_all; [apply polymarketToMarket_clamped | exact Hcache].
Qed.

Lemma fetchPolymarketMarketsDirect_clamped payload st :
  cache_all clamped st -> loop_clamped (fetchPolymarketMarketsDirect payload st).
Proof.
  intros Hst. apply (fetchPolymarketMarketsDirect_inv loop_clamped).
  - intros. now apply ingestMarket_loop_clamped.
  - split; [constructor | exact Hst].
Qed.

Lemma fetchAllPolymarketEvents_clamped payload st :
  cache_all clamped st -> loop_clamped (fetchAllPolymarketEvents payload st).
Proof.
  intros Hst. apply (fetchAllPolymarketEvents_inv loop_clamped).
  - intros. now apply ingestMarket_loop_clamped.
  - split; [constructor | exact Hst].
Qed.

Lemma fetchBoth_clamped eventsPayload directPayload directFirst st :
  cache_all clamped st ->
  cache_all clamped (snd (fetchBoth eventsPayload directPayload directFirst st)).
Proof.
  intros Hst. unfold fetchBoth. destruct directFirst; cbn [snd].
  - apply fetchAllPolymarketEvents_clamped.
    now apply fetchPolymarketMarketsDirect_clamped.
  - apply fetchPolymarketMarketsDirect_clamped.
    now apply fetchAllPolymarketEvents_clamped.
Qed.

(** C2 (as amended).  Every record that the Kalshi adapter, the Polymarket
    adapter or the static fallback produces has both prices in the closed
    interval from 0.01 to 0.99.  Both fetch loops of the live-feed module,
    the one over the events payload and the one over the direct payload,
    return only such records and keep the cache in that state, and so does
    a whole refresh by [getPolymarketMarkets].  A live-feed patch does not:
    what it keeps is that both prices of every cached record are above 0
    and at most 1, which every clamped record satisfies. *)
Theorem ingestion_clamped_patch_within_unit :
  (forall k, clamped (kalshiToMarket k)) /\
  (forall title description category volume p,
     clamped (polymarketToMarket title description category volume p)) /\
  Forall clamped fallbackMarkets /\
  (forall data st, cache_all clamped st ->
     Forall clamped (fst (ingestDirect data st)) /\
     cache_all clamped (snd (ingestDirect data st))) /\
  (forall events st, cache_all clamped st ->
     Forall clamped (fst (ingestEvents events st)) /\
     cache_all clamped (snd (ingestEvents events st))) /\
  (forall now eventsPayload directPayload directFirst st,
     cache_all clamped (feedCache st) ->
     cache_all clamped
       (feedCache (snd (getPolymarketMarkets now eventsPayload directPayload directFirst st)))) /\
  (forall m, clamped m -> within_unit m) /\
  (forall message st,
     cache_all within_unit st -> cache_all within_unit (handleRTDSMessage message st)).
Proof.
  split; [exact kalshiToMarket_clamped|].
  split; [exact polymarketToMarket_clamped|].
  split; [exact fallbackMarkets_clamped|].
  split.
  { intros data st Hst. exact (fetchPolymarketMarketsDirect_clamped (Some data) st Hst). }
  split.
  { intros events st Hst. exact (fetchAllPolymarketEvents_clamped (Some events) st Hst). }
  split.
  { intros now eventsPayload directPayload directFirst st Hst.
    rewrite getPolymarketMarkets_cache. destruct (refreshDue now st); [|exact Hst].
    now apply fetchBoth_clamped. }
  split; [exact clamped_within_unit|].
  intros message st. apply handleRTDSMessage_cache_all.
  intros market outcome newPrice. apply applyTrade_within_unit.
Qed.

Lemma ingestion_clamped_patch_within_unit_witness :
  cache_all within_unit (handleRTDSMessage extremeTrade sampleCache).
Proof.
  apply (proj2 (proj2 (proj2 (proj2 (proj2 (proj2 (proj2
           ingestion_clamped_patch_within_unit))))))).
  intros key m Hm. apply clamped_within_unit. exact (sampleCache_clamped key m Hm).
Defined.

(** C2 fails as stated: the cache holds one adapter-built record with prices
    0.42 and 0.58; a trade at 0.995 for its slug leaves a yes price above
    0.99 (and a no price below 0.01). *)
Lemma patch_breaks_clamping :
  cache_all clamped sampleCache /\
  ~ cache_all clamped (handleRTDSMessage extremeTrade sampleCache).
Proof.
  split; [apply sampleCache_clamped|].
  intros H.
  specialize (H "pm-1" (Market.set_prices sampleMarket 0.995 (1 - 0.995))).
  assert (Hl : marketCache (handleRTDSMessage extremeTrade sampleCache) !! "pm-1"
               = Some (Market.set_prices sampleMarket 0.995 (1 - 0.995))).
  { vm_compute. reflexivity. }
  destruct (H Hl) as [[_ Hy] _]. cbn in Hy. lra.
Qed.

(** X4.  After any sequence of refreshes, trade messages and connection
    events on a fresh process, a lookup by id in the live cache returns, if
    anything, a Polymarket record that carries the requested id, which starts
    with [pm-], and whose two prices are above 0 and at most 1. *)
Theorem getMarketById_coherent ops id m :
  getMarketById id (feedCache (feedOps initialFeedState ops)) = Some m ->
  Market.id m = id /\ Market.platform m = polymarket /\
  String.prefix "pm-" id = true /\ within_unit m.
Proof.
  intros Hm. destruct (feedOps_feed_ok ops) as (Hkeys & _ & Hprices).
  destruct (Hkeys id m Hm) as (? & ? & ?).
  split; [assumption|]. split; [assumption|]. split; [assumption|].
  apply in_unit_within_unit, (Hprices id m Hm).
Qed.

Lemma getMarketById_coherent_witness :
  exists m,
    getMarketById "pm-1" (feedCache (feedOps initialFeedState sampleOps)) = Some m /\
    Market.id m = "pm-1" /\ Market.platform m = polymarket /\
    String.prefix "pm-" "pm-1" = true /\ within_unit m.
Proof.
  eexists. split.
  - vm_compute. reflexivity.
  - apply (getMarketById_coherent sampleOps "pm-1"). vm_compute. reflexivity.
Defined.

(** X5.  After any sequence of refreshes, trade messages and connection
    events on a fresh process, every slug of the slug index leads to a cached
    record, so that a trade for an indexed slug at a price strictly between
    0 and 1 is always applied: the record then carries the trade price on
    the traded side. *)
Theorem indexed_trade_is_applied ops s key outcome newPrice sz sd ts :
  slugToMarketId (feedCache (feedOps initialFeedState ops)) !! s = Some key ->
  0 < newPrice -> newPrice < 1 ->
  let message :=
    RTDSMessage.mk "activity" "trades"
      (Some (TradePayload.mk s outcome (Some newPrice) sz sd ts)) in
  exists market',
    marketCache (handleRTDSMessage message (feedCache (feedOps initialFeedState ops))) !! key
    = Some market' /\
    (if String.eqb outcome "Yes" || String.eqb outcome "yes"
     then Market.yesPrice market' = newPrice
     else Market.noPrice market' = newPrice).
Proof.
  intros Hs H0 H1 message.
  destruct (feedOps_feed_ok ops) as (_ & Hslugs & _).
  destruct (Hslugs s key Hs) as (Hs1 & Hs2 & [market Hm]).
  rewrite (handleRTDSMessage_accepts message
             (feedCache (feedOps initialFeedState ops))
             (TradePayload.mk s outcome (Some newPrice) sz sd ts) key market newPrice);
    try reflexivity; try assumption.
  cbn [marketCache]. exists (applyTrade market outcome newPrice).
  split; [apply lookup_insert_eq|].
  now destruct (applyTrade_side market outcome newPrice).
Qed.

Lemma indexed_trade_is_applied_witness :
  exists market',
    marketCache
      (handleRTDSMessage (RTDSMessage.mk "activity" "trades"
         (Some (TradePayload.mk "btc-150k" "No" (Some 0.3) None "SELL" None)))
         (feedCache (feedOps initialFeedState sampleOps))) !! "pm-1"
    = Some market' /\
    Market.noPrice market' = 0.3.
Proof.
  apply (indexed_trade_is_applied sampleOps "btc-150k" "pm-1" "No" 0.3 None "SELL" None).
  - vm_compute. reflexivity.
  - lra.
  - lra.
Defined.

(** X6.  No operation of the live-feed module ever removes a record from
    [marketCache]: a refresh, a trade message or a connection event leaves
    every cached id cached, also when the listing has vanished from the
    payloads or has been closed. *)
Theorem marketCache_never_shrinks st op :
  dom (marketCache (feedCache st)) ⊆ dom (marketCache (feedCache (feedOp st op))).
Proof.
  rewrite feedOp_cache. destruct op as [now e d b | message | ev].
  - destruct (refreshDue now st); [|reflexivity].
    pose proof (fetchBoth_ok e d b (feedCache st)) as H.
    destruct (fetchBoth e d b (feedCache st)) as [[em dm] fetched].
    destruct H as (_ & Hkeep & _). cbn [snd].
    intros key Hkey. apply elem_of_dom. apply Hkeep. now apply elem_of_dom.
  - now rewrite handleRTDSMessage_dom.
  - reflexivity.
Qed.

(** *** The refresh clock *)

Lemma fetchBoth_failed directFirst st : snd (fetchBoth None None directFirst st) = st.
Proof. now destruct directFirst. Qed.

(** X7.  [getPolymarketMarkets] fetches nothing while the cache is not empty
    and at most 30000 ms have passed since the last refresh: the state stays
    as it is, whatever the payloads would be.  A refresh whose two requests
    both fail leaves the maps as they were and still records the time of the
    attempt, so that with a non-empty cache the next attempt comes only after
    a further 30000 ms. *)
Theorem refresh_clock now eventsPayload directPayload directFirst st :
  (size (marketCache (feedCache st)) <> 0%nat ->
   (now - lastFullRefresh st <= 30000)%Z ->
   getPolymarketMarkets now eventsPayload directPayload directFirst st
   = (getAllCachedMarkets (feedCache st), st)) /\
  (refreshDue now st = true ->
   let st' := snd (getPolymarketMarkets now None None directFirst st) in
   feedCache st' = feedCache st /\ lastFullRefresh st' = now /\
   (size (marketCache (feedCache st)) <> 0%nat ->
    forall later, (later - now <= 30000)%Z -> refreshDue later st' = false)).
Proof.
  split.
  - intros Hsize Hage. unfold getPolymarketMarkets, refreshDue.
    destruct (Nat.eqb_spec (size (marketCache (feedCache st))) 0); [contradiction|].
    destruct (Z.ltb_spec FULL_REFRESH_INTERVAL (now - lastFullRefresh st));
      [unfold FULL_REFRESH_INTERVAL in *; lia | reflexivity].
  - intros Hdue st'.
    assert (Hcache : feedCache st' = feedCache st).
    { unfold st'. rewrite getPolymarketMarkets_cache, Hdue. apply fetchBoth_failed. }
    assert (Hlast : lastFullRefresh st' = now).
    { unfold st', getPolymarketMarkets. rewrite Hdue.
      destruct (fetchBoth None None directFirst (feedCache st)) as [[em dm] fetched].
      reflexivity. }
    split; [exact Hcache|]. split; [exact Hlast|].
    intros Hsize later Hlater. unfold refreshDue. rewrite Hcache, Hlast.
    destruct (Nat.eqb_spec (size (marketCache (feedCache st))) 0); [contradiction|].
    destruct (Z.ltb_spec FULL_REFRESH_INTERVAL (later - now));
      [unfold FULL_REFRESH_INTERVAL in *; lia | reflexivity].
Qed.

Lemma refresh_clock_witness :
  getPolymarketMarkets 20000 (Some []) None true sampleFeedState
  = (getAllCachedMarkets (feedCache sampleFeedState), sampleFeedState) /\
  let st' := snd (getPolymarketMarkets 40000 None None true sampleFeedState) in
  feedCache st' = feedCache sampleFeedState /\ lastFullRefresh st' = 40000%Z /\
  (size (marketCache (feedCache sampleFeedState)) <> 0%nat ->
   forall later, (later - 40000 <= 30000)%Z -> refreshDue later st' = false).
Proof.
  split.
  - apply (proj1 (refresh_clock 20000 (Some []) None true sampleFeedState)).
    + vm_compute. discriminate.
    + vm_compute. discriminate.
  - apply (proj2 (refresh_clock 40000 None None true sampleFeedState)).
    vm_compute. reflexivity.
Defined.

(** *** The reconnect counter *)

Lemma scheduleReconnect_conn_ok c : conn_ok c -> conn_ok (scheduleReconnect c).
Proof.
  intros [Hn Ht]. unfold scheduleReconnect, MAX_RECONNECT_ATTEMPTS in *.
  destruct (Nat.leb_spec 5 (reconnectAttempts c)); [now split|].
  split; cbn; [lia|].
  apply Forall_app. split; [exact Ht|]. constructor; [|constructor].
  exists (S (reconnectAttempts c)). unfold RECONNECT_DELAY. split; [lia | reflexivity].
Qed.

Lemma connectWebSocket_conn_ok ctorThrows c :
  conn_ok c -> conn_ok (connectWebSocket ctorThrows c).
Proof.
  intros Hc. unfold connectWebSocket.
  destruct (wsConnection c) as [[]|]; try exact Hc;
    (destruct ctorThrows; [now apply scheduleReconnect_conn_ok | exact Hc]).
Qed.

Lemma feedStep_conn_ok c ev : conn_ok c -> conn_ok (feedStep c ev).
Proof.
  intros Hc. destruct ev; cbn.
  - destruct (wsConnection c); [exact Hc | now apply connectWebSocket_conn_ok].
  - destruct Hc as [Hn Ht]. split; cbn; [lia | exact Ht].
  - apply scheduleReconnect_conn_ok. exact Hc.
  - exact Hc.
  - destruct (timers c) as [|d pending] eqn:Et; [exact Hc|].
    apply connectWebSocket_conn_ok. destruct Hc as [Hn Ht]. split; cbn; [exact Hn|].
    rewrite Et in Ht. now inversion Ht.
Qed.

Lemma feedOp_conn_ok st op : conn_ok (feedConn st) -> conn_ok (feedConn (feedOp st op)).
Proof.
  intros Hc. destruct op as [now e d b | message | ev]; cbn.
  - unfold getPolymarketMarkets. destruct (refreshDue now st); [|exact Hc].
    destruct (fetchBoth e d b (feedCache st)) as [[em dm] fetched]. cbn.
    destruct (negb _); [|exact Hc].
    destruct (wsConnection (feedConn st)); [exact Hc | now apply connectWebSocket_conn_ok].
  - exact Hc.
  - now apply feedStep_conn_ok.
Qed.

(** X8.  After any sequence of refreshes, trade messages and connection
    events on a fresh process, the reconnect counter is at most 5 and every
    pending reconnect timer was set to 5000 ms times an attempt number
    between 1 and 5, hence to at most 25000 ms. *)
Theorem reconnect_counter_bounded ops :
  (reconnectAttempts (feedConn (feedOps initialFeedState ops)) <= 5)%nat /\
  Forall (fun delay => exists attempt : nat,
            (1 <= attempt <= 5)%nat /\ delay = (5000 * Z.of_nat attempt)%Z)
         (timers (feedConn (feedOps initialFeedState ops))).
Proof.
  unfold feedOps.
  apply (fold_left_inv (fun st => conn_ok (feedConn st))).
  - intros st op. apply feedOp_conn_ok.
  - split; cbn; [lia | constructor].
Qed.

(** ** Further properties of [api-clients.ts] *)

(** *** The cache *)



Lemma failedCalls_initial times : failedCalls times initialApiState = initialApiState.
Proof.
  unfold failedCalls. induction times as [|now times IH]; [reflexivity|].
  cbn [fold_left]. exact IH.
Qed.

(** X10.  The fallback list never counts as live data: as long as the
    sources deliver nothing, every call on a fresh process asks them again
    and returns the six fallback records, however little time has passed;
    the first call that brings records returns exactly those, without any
    fallback record. *)
Theorem fallback_is_never_live times now pm kl :
  failedCalls times initialApiState = initialApiState /\
  snd (fetchAllMarkets now [] [] (failedCalls times initialApiState)) = fallbackMarkets /\
  length fallbackMarkets = 6%nat /\
  (pm ++ kl <> [] ->
   snd (fetchAllMarkets now pm kl (failedCalls times initialApiState)) = pm ++ kl).
Proof.
  rewrite failedCalls_initial.
  split; [reflexivity|]. split; [reflexivity|]. split; [reflexivity|].
  intros Hne. apply is_empty_false in Hne. unfold fetchAllMarkets. cbn.
  now rewrite Hne.
Qed.

Lemma fallback_is_never_live_witness :
  snd (fetchAllMarkets 10 [sampleMarket] [] (failedCalls [1; 2; 3]%Z initialApiState))
  = [sampleMarket] ++ [].
Proof.
  apply (proj2 (proj2 (proj2
           (fallback_is_never_live [1; 2; 3]%Z 10%Z [sampleMarket] [])))).
  discriminate.
Defined.

Lemma filter_all {A} (f : A -> bool) l :
  Forall (fun x => f x = true) l -> List.filter f l = l.
Proof.
  induction 1 as [|x l Hx Hl IH]; cbn; [reflexivity|]. now rewrite Hx, IH.
Qed.

Lemma filter_none {A} (f : A -> bool) l :
  Forall (fun x => f x = false) l -> List.filter f l = [].
Proof.
  induction 1 as [|x l Hx Hl IH]; cbn; [reflexivity|]. now rewrite Hx.
Qed.

Lemma filter_filter_same {A} (f : A -> bool) l :
  List.filter f (List.filter f l) = List.filter f l.
Proof.
  apply filter_all. apply List.Forall_forall. intros x Hx.
  now apply filter_In in Hx.
Qed.

Lemma is_kalshi_not_polymarket m : is_kalshi m = negb (is_polymarket m).
Proof. unfold is_kalshi, is_polymarket. now destruct (Market.platform m). Qed.

(** X11.  [getCachedMarkets] returns the cached list when the live cache is
    empty.  When the live cache holds records (all of them Polymarket
    records), the result consists of exactly those followed by the Kalshi
    records of the cached list: the Polymarket records of the cached list,
    fallback ones included, are left out. *)
Theorem getCachedMarkets_sides polymarketCached st :
  getCachedMarkets [] st = cachedMarkets st /\
  (polymarketCached <> [] ->
   Forall (fun m => Market.platform m = polymarket) polymarketCached ->
   getCachedMarkets polymarketCached st
   = polymarketCached ++ List.filter is_kalshi (cachedMarkets st) /\
   List.filter is_polymarket (getCachedMarkets polymarketCached st) = polymarketCached /\
   List.filter is_kalshi (getCachedMarkets polymarketCached st)
   = List.filter is_kalshi (cachedMarkets st)).
Proof.
  split; [reflexivity|].
  intros Hne Hpm. apply is_empty_false in Hne.
  assert (Hres : getCachedMarkets polymarketCached st
                 = polymarketCached ++ List.filter is_kalshi (cachedMarkets st)).
  { unfold getCachedMarkets. now rewrite Hne. }
  split; [exact Hres|]. rewrite Hres, !List.filter_app.
  assert (Hp : List.filter is_polymarket polymarketCached = polymarketCached).
  { apply filter_all. eapply List.Forall_impl; [|exact Hpm].
    intros m Hm. unfold is_polymarket. now rewrite Hm. }
  assert (Hk : List.filter is_kalshi polymarketCached = []).
  { apply filter_none. eapply List.Forall_impl; [|exact Hpm].
    intros m Hm. unfold is_kalshi. now rewrite Hm. }
  assert (Hpk : List.filter is_polymarket (List.filter is_kalshi (cachedMarkets st)) = []).
  { apply filter_none. apply List.Forall_forall. intros m Hm.
    apply filter_In in Hm as [_ Hm]. rewrite is_kalshi_not_polymarket in Hm.
    now apply negb_true_iff in Hm. }
  rewrite Hp, Hk, Hpk, filter_filter_same, app_nil_r. split; reflexivity.
Qed.

Lemma getCachedMarkets_sides_witness :
  getCachedMarkets [sampleMarket] initialApiState
  = [sampleMarket] ++ List.filter is_kalshi (cachedMarkets initialApiState) /\
  List.filter is_polymarket (getCachedMarkets [sampleMarket] initialApiState) = [sampleMarket] /\
  List.filter is_kalshi (getCachedMarkets [sampleMarket] initialApiState)
  = List.filter is_kalshi (cachedMarkets initialApiState).
Proof.
  apply (proj2 (getCachedMarkets_sides [sampleMarket] initialApiState)).
  - discriminate.
  - repeat constructor.
Defined.

(** X12.  Whatever the live-feed module has gone through, a record that
    [getCachedMarketById] returns carries the requested id; and for an id
    that does not start with [pm-] the answer is the first record of the
    cached list with that id, the live cache playing no part. *)
Theorem getCachedMarketById_requested ops id st :
  (forall m, getCachedMarketById id (feedCache (feedOps initialFeedState ops)) st = Some m ->
     Market.id m = id) /\
  (String.prefix "pm-" id = false ->
   getCachedMarketById id (feedCache (feedOps initialFeedState ops)) st
   = List.find (fun m => String.eqb (Market.id m) id) (cachedMarkets st)).
Proof.
  split.
  - intros m. unfold getCachedMarketById.
    assert (Hfind : List.find (fun m => String.eqb (Market.id m) id) (cachedMarkets st)
                    = Some m -> Market.id m = id).
    { intros H. apply find_some in H as [_ H]. now apply String.eqb_eq in H. }
    destruct (String.prefix "pm-" id); [|exact Hfind].
    destruct (getMarketById id (feedCache (feedOps initialFeedState ops)))
      as [polyMarket|] eqn:E; [|exact Hfind].
    intros [= <-]. destruct (feedOps_feed_ok ops) as (Hkeys & _).
    now destruct (Hkeys id polyMarket E).
  - intros Hpre. unfold getCachedMarketById. now rewrite Hpre.
Qed.

Lemma getCachedMarketById_requested_witness :
  Market.id (mkMarket "kl-fallback-1" "Will there be a government shutdown before March 2025?"
    "Resolves YES if a federal government shutdown occurs lasting at least 24 hours."
    kalshi politics 0.28 0.72 890000 "2025-03-01") = "kl-fallback-1" /\
  getCachedMarketById "kl-fallback-1" (feedCache (feedOps initialFeedState sampleOps))
    initialApiState
  = List.find (fun m => String.eqb (Market.id m) "kl-fallback-1")
      (cachedMarkets initialApiState).
Proof.
  split.
  - apply (proj1 (getCachedMarketById_requested sampleOps "kl-fallback-1" initialApiState)).
    vm_compute. reflexivity.
  - apply (proj2 (getCachedMarketById_requested sampleOps "kl-fallback-1" initialApiState)).
    reflexivity.
Defined.

(** *** The Kalshi adapter *)

Lemma clamp_inside v :
  0.01 <= v -> v <= 0.99 -> JsNum.max 0.01 (JsNum.min 0.99 v) == v.
Proof.
  intros Hlo Hhi. unfold JsNum.min, JsNum.max.
  destruct (Qle_bool 0.99 v) eqn:E1.
  - apply Qle_bool_iff in E1. change (Qle_bool 0.01 0.99) with true. cbn iota. lra.
  - destruct (Qle_bool 0.01 v) eqn:E2; [reflexivity|].
    assert (~ 0.01 <= v) by (rewrite <- Qle_bool_iff, E2; discriminate). lra.
Qed.

(** X13.  The Kalshi adapter quotes the mid of the yes bid and ask, in
    cents, as a fraction: when both quotes are present and their mid lies
    between 1 and 99 cents, [yesPrice] is (bid + ask) / 2 / 100.  When a
    quote is missing, or the two quotes sum to zero, [yesPrice] is 0.5.  The
    record is a Kalshi record whose id is the ticker after [kl-]. *)
Theorem kalshi_mid_price k :
  (forall bid ask,
     KalshiMarket.yes_bid k = Some bid -> KalshiMarket.yes_ask k = Some ask ->
     1 <= (bid + ask) / 2 -> (bid + ask) / 2 <= 99 ->
     Market.yesPrice (kalshiToMarket k) == (bid + ask) / 2 / 100) /\
  (KalshiMarket.yes_bid k = None \/ KalshiMarket.yes_ask k = None ->
   Market.yesPrice (kalshiToMarket k) = 0.5) /\
  (forall bid ask,
     KalshiMarket.yes_bid k = Some bid -> KalshiMarket.yes_ask k = Some ask ->
     bid + ask == 0 -> Market.yesPrice (kalshiToMarket k) = 0.5) /\
  Market.platform (kalshiToMarket k) = kalshi /\
  Market.id (kalshiToMarket k) = ("kl-" ++ KalshiMarket.ticker k)%string.
Proof.
  split; [|split; [|split; [|split; reflexivity]]].
  - intros bid ask Hb Ha Hlo Hhi. cbn. rewrite Hb, Ha. cbn.
    set (mid := (bid + ask) / 2 / 100).
    assert (Hmid : 0.01 <= mid /\ mid <= 0.99).
    { unfold mid. split.
      - apply Qle_shift_div_l; [reflexivity | lra].
      - apply Qle_shift_div_r; [reflexivity | lra]. }
    destruct Hmid as [Hmlo Hmhi].
    assert (Hnz : Qeq_bool mid 0 = false).
    { destruct (Qeq_bool mid 0) eqn:E; [|reflexivity]. apply Qeq_bool_iff in E. lra. }
    rewrite Hnz. now apply clamp_inside.
  - intros Hmiss. cbn.
    destruct Hmiss as [-> | ->]; [reflexivity|].
    destruct (KalshiMarket.yes_bid k); reflexivity.
  - intros bid ask Hb Ha Hzero. cbn. rewrite Hb, Ha. cbn.
    assert (Hz : Qeq_bool ((bid + ask) / 2 / 100) 0 = true).
    { apply Qeq_bool_iff. rewrite Hzero. reflexivity. }
    now rewrite Hz.
Qed.

Lemma kalshi_mid_price_witness :
  Market.yesPrice (kalshiToMarket openListing) == (34 + 36) / 2 / 100 /\
  Market.yesPrice (kalshiToMarket
    (KalshiMarket.mk "X" "No quotes" "" None (Some 40) None None None "" "open" "" "")) = 0.5.
Proof.
  split.
  - apply (proj1 (kalshi_mid_price openListing) 34 36).
    + reflexivity.
    + reflexivity.
    + vm_compute. discriminate.
    + vm_compute. discriminate.
  - apply (proj1 (proj2 (kalshi_mid_price
             (KalshiMarket.mk "X" "No quotes" "" None (Some 40) None None None "" "open" "" "")))).
    left. reflexivity.
Defined.

(** *** Titles and similarity *)

Lemma split_space_aux_nonempty cur s : JsStr.split_space_aux cur s <> [].
Proof.
  revert cur. induction s as [|c rest IH]; intros cur; cbn.
  - discriminate.
  - destruct (Ascii.eqb c " "%char); [discriminate | apply IH].
Qed.

Lemma titleWords_nonempty title : titleWords title <> [].
Proof. apply split_space_aux_nonempty. Qed.

Lemma ratio_nonneg (n d : nat) : 0 <= inject_Z (Z.of_nat n) / inject_Z (Z.of_nat d).
Proof.
  apply Qmult_le_0_compat.
  - rewrite <- (Zle_Qle 0). lia.
  - apply Qinv_le_0_compat. rewrite <- (Zle_Qle 0). lia.
Qed.

Lemma ratio_pos (n d : nat) :
  (0 < d)%nat -> (0 < inject_Z (Z.of_nat n) / inject_Z (Z.of_nat d) <-> (0 < n)%nat).
Proof.
  intros Hd.
  assert (Hdq : 0 < inject_Z (Z.of_nat d)) by (rewrite <- (Zlt_Qlt 0); lia).
  split.
  - intros Hpos. destruct n as [|n]; [|lia]. exfalso.
    unfold Qdiv in Hpos. rewrite Qmult_0_l in Hpos. now apply Qlt_irrefl in Hpos.
  - intros Hn. apply Qlt_shift_div_l; [exact Hdq|].
    rewrite Qmult_0_l, <- (Zlt_Qlt 0). lia.
Qed.

Lemma ratio_le_1 (n d : nat) :
  (0 < d)%nat -> (n <= d)%nat -> inject_Z (Z.of_nat n) / inject_Z (Z.of_nat d) <= 1.
Proof.
  intros Hd Hn. apply Qle_shift_div_r.
  - rewrite <- (Zlt_Qlt 0). lia.
  - rewrite Qmult_1_l, <- Zle_Qle. lia.
Qed.

Lemma calculateSimilarity_unfold title1 title2 :
  calculateSimilarity title1 title2
  = inject_Z (Z.of_nat (length
      (List.filter (fun x => bool_decide (x ∈ (list_to_set (titleWords title2) : gset string)))
                   (titleWords title1))))
    / inject_Z (Z.of_nat (size (list_to_set (titleWords title1 ++ titleWords title2)
                                  : gset string))).
Proof. reflexivity. Qed.

Lemma union_size_pos title1 title2 :
  (0 < size (list_to_set (titleWords title1 ++ titleWords title2) : gset string))%nat.
Proof.
  destruct (titleWords title1) as [|w rest] eqn:E; [now apply titleWords_nonempty in E|].
  apply Nat.neq_0_lt_0. apply size_non_empty_iff. intros Hempty.
  assert (Hw : w ∈ (list_to_set ((w :: rest) ++ titleWords title2) : gset string)).
  { apply elem_of_list_to_set. cbn. left. }
  rewrite Hempty in Hw. now apply not_elem_of_empty in Hw.
Qed.

Lemma filter_length_pos {A} (f : A -> bool) l :
  (0 < length (List.filter f l))%nat <-> exists x, In x l /\ f x = true.
Proof.
  split.
  - destruct (List.filter f l) as [|x rest] eqn:E; cbn; [lia|]. intros _.
    exists x. apply filter_In. rewrite E. now left.
  - intros (x & Hx & Hf). assert (Hin : In x (List.filter f l)) by now apply filter_In.
    destruct (List.filter f l); [destruct Hin | cbn; lia].
Qed.

(** X14.  The similarity of two titles is never negative; it is positive
    exactly when some word of the first normalized title is a word of the
    second; and when no word occurs twice in the first title it is at most
    1.  Without that condition it can exceed 1: a repeated word counts once
    in the union and every time in the intersection. *)
Theorem similarity_range title1 title2 :
  0 <= calculateSimilarity title1 title2 /\
  (0 < calculateSimilarity title1 title2 <->
   exists w, In w (titleWords title1) /\ In w (titleWords title2)) /\
  (NoDup (titleWords title1) -> calculateSimilarity title1 title2 <= 1) /\
  calculateSimilarity "a a b" "a b" == 3 # 2.
Proof.
  rewrite calculateSimilarity_unfold.
  split; [apply ratio_nonneg|]. split; [|split].
  - rewrite ratio_pos by apply union_size_pos. rewrite filter_length_pos.
    split; intros (w & Hw1 & Hw2); exists w; (split; [exact Hw1|]).
    + apply bool_decide_eq_true in Hw2. apply elem_of_list_to_set in Hw2.
      now apply list_elem_of_In.
    + apply bool_decide_eq_true, elem_of_list_to_set. now apply list_elem_of_In.
  - intros Hnodup. apply ratio_le_1; [apply union_size_pos|].
    etransitivity; [apply List.filter_length_le|].
    rewrite <- (size_list_to_set (C := gset string)) by exact Hnodup.
    apply subseteq_size. intros w Hw. apply elem_of_list_to_set in Hw.
    apply elem_of_list_to_set, elem_of_app. now left.
  - vm_compute. reflexivity.
Qed.

Lemma similarity_range_witness :
  calculateSimilarity "Will Bitcoin exceed $150,000?" "Bitcoin to exceed $150,000" <= 1.
Proof.
  apply (proj1 (proj2 (proj2
           (similarity_range "Will Bitcoin exceed $150,000?" "Bitcoin to exceed $150,000")))).
  vm_compute. apply (bool_decide_unpack _). vm_compute. exact I.
Defined.

(** *** The matcher *)

Lemma fold_left_inv_In {A B} (P : A -> Prop) (f : A -> B -> A) l a :
  (forall a b, In b l -> P a -> P (f a b)) -> P a -> P (fold_left f l a).
Proof.
  revert a. induction l as [|b l IH]; intros a Hf Ha; cbn; [exact Ha|].
  apply IH.
  - intros a' b' Hb'. apply Hf. now right.
  - apply Hf; [now left | exact Ha].
Qed.

Lemma matchStep_pairs markets kalshiMarkets acc pm :
  (forall kl, In kl kalshiMarkets -> In kl markets /\ Market.platform kl = kalshi) ->
  In pm markets -> Market.platform pm = polymarket ->
  Forall (pair_ok markets) (fst acc) ->
  Forall (pair_ok markets) (fst (matchStep kalshiMarkets acc pm)).
Proof.
  intros Hkls Hpm Hplat Hacc. destruct acc as [matches usedKalshi]. unfold matchStep.
  destruct (findBestMatch usedKalshi pm kalshiMarkets) as [[market sim]|] eqn:Ebest;
    [|exact Hacc].
  destruct (JsNum.gtb sim 0.4) eqn:Esim; [|exact Hacc].
  apply findBestMatch_unused in Ebest as (_ & Hin & Hsim & _).
  apply JsNum_gtb_gt in Esim. destruct (Hkls market Hin) as [Hm Hk].
  cbn [fst]. apply Forall_app. split; [exact Hacc|].
  constructor; [|constructor].
  exists pm, market. cbn. repeat split; assumption.
Qed.

Lemma matched_ids_length matches :
  Forall both_sides matches ->
  length (matchedKalshiIds matches) = length matches /\
  length (matchedPolymarketIds matches) = length matches.
Proof.
  unfold matchedKalshiIds, matchedPolymarketIds.
  induction 1 as [|mtch rest [[pm Hpm] [kl Hkl]] Hrest [IHk IHp]]; [now split|].
  cbn. rewrite Hpm, Hkl. cbn. now rewrite IHk, IHp.
Qed.

Lemma findMatchingMarkets_pair_ok markets :
  Forall (pair_ok markets) (findMatchingMarkets markets).
Proof.
  unfold findMatchingMarkets.
  apply (fold_left_inv_In (fun acc => Forall (pair_ok markets) (fst acc))).
  - intros acc pm Hpm Hacc. apply filter_In in Hpm as [Hin Hplat].
    apply matchStep_pairs; try assumption.
    + intros kl Hkl. apply filter_In in Hkl as [Hk1 Hk2]. split; [exact Hk1|].
      now destruct (Market.platform kl).
    + now destruct (Market.platform pm).
  - constructor.
Qed.

(** X15.  Every pair that the matcher returns joins a Polymarket record and
    a Kalshi record of the snapshot, carries the similarity of their two
    titles, and that similarity exceeds 0.4.  There are no more pairs than
    Polymarket records in the snapshot. *)
Theorem findMatchingMarkets_pairs markets :
  Forall (pair_ok markets) (findMatchingMarkets markets) /\
  (length (findMatchingMarkets markets)
   <= length (List.filter is_polymarket markets))%nat.
Proof.
  split; [apply findMatchingMarkets_pair_ok|].
  destruct (findMatchingMarkets_inv markets) as (Hboth & _ & Hsub).
  destruct (matched_ids_length _ Hboth) as [_ <-].
  apply sublist_length in Hsub. unfold polymarketIds in Hsub.
  now rewrite length_map in Hsub.
Qed.

Lemma JsNum_gtb_le x y : JsNum.gtb x y = false <-> x <= y.
Proof. apply JsNum_ltb_ge. Qed.

Lemma bestMatchStep_grows usedKalshi pm bestMatch kl b s :
  bestMatch = Some (b, s) ->
  exists b' s', bestMatchStep usedKalshi pm bestMatch kl = Some (b', s') /\ s <= s'.
Proof.
  intros ->. unfold bestMatchStep.
  destruct (bool_decide (Market.id kl ∈ usedKalshi)); [exists b, s; split; [reflexivity | lra]|].
  destruct (JsNum.gtb (calculateSimilarity (Market.title pm) (Market.title kl)) 0.3); cbn;
    [|exists b, s; split; [reflexivity | lra]].
  destruct (JsNum.gtb (calculateSimilarity (Market.title pm) (Market.title kl)) s) eqn:E.
  - apply JsNum_gtb_gt in E. eexists _, _. split; [reflexivity | lra].
  - exists b, s. split; [reflexivity | lra].
Qed.

Lemma bestMatchStep_covers usedKalshi pm bestMatch kl :
  Market.id kl ∉ usedKalshi ->
  0.3 < calculateSimilarity (Market.title pm) (Market.title kl) ->
  exists b' s', bestMatchStep usedKalshi pm bestMatch kl = Some (b', s') /\
                calculateSimilarity (Market.title pm) (Market.title kl) <= s'.
Proof.
  intros Hfree Hsim. unfold bestMatchStep.
  rewrite bool_decide_eq_false_2 by exact Hfree.
  apply JsNum_gtb_gt in Hsim. rewrite Hsim. cbn.
  destruct bestMatch as [[b s]|]; cbn [snd].
  - destruct (JsNum.gtb (calculateSimilarity (Market.title pm) (Market.title kl)) s) eqn:E.
    + eexists _, _. split; [reflexivity | lra].
    + apply JsNum_gtb_le in E. exists b, s. split; [reflexivity | exact E].
  - eexists _, _. split; [reflexivity | lra].
Qed.

Lemma findBestMatch_grows usedKalshi pm kalshiMarkets bestMatch b s :
  bestMatch = Some (b, s) ->
  exists b' s',
    fold_left (bestMatchStep usedKalshi pm) kalshiMarkets bestMatch = Some (b', s') /\ s <= s'.
Proof.
  revert bestMatch b s. induction kalshiMarkets as [|k rest IH]; intros bestMatch b s Hb; cbn.
  - exists b, s. split; [exact Hb | lra].
  - destruct (bestMatchStep_grows usedKalshi pm bestMatch k b s Hb) as (b1 & s1 & H1 & Hle1).
    destruct (IH _ b1 s1 H1) as (b2 & s2 & H2 & Hle2).
    exists b2, s2. split; [exact H2 | lra].
Qed.

Lemma findBestMatch_covers usedKalshi pm kalshiMarkets bestMatch kl :
  In kl kalshiMarkets -> Market.id kl ∉ usedKalshi ->
  0.3 < calculateSimilarity (Market.title pm) (Market.title kl) ->
  exists b' s',
    fold_left (bestMatchStep usedKalshi pm) kalshiMarkets bestMatch = Some (b', s') /\
    calculateSimilarity (Market.title pm) (Market.title kl) <= s'.
Proof.
  revert bestMatch. induction kalshiMarkets as [|k rest IH]; intros bestMatch Hin Hfree Hsim.
  - destruct Hin.
  - cbn. destruct Hin as [-> | Hin].
    + destruct (bestMatchStep_covers usedKalshi pm bestMatch kl Hfree Hsim)
        as (b1 & s1 & H1 & Hle1).
      destruct (findBestMatch_grows usedKalshi pm rest _ b1 s1 H1) as (b2 & s2 & H2 & Hle2).
      exists b2, s2. split; [exact H2 | lra].
    + now apply IH.
Qed.

(** X16.  For one Polymarket record the inner loop of the matcher picks,
    among the Kalshi records whose id is not used yet, one whose title
    similarity is the highest, provided that similarity exceeds 0.3: no
    unused Kalshi record is more similar than the one picked, and nothing is
    picked exactly when no unused Kalshi record is more than 0.3 similar. *)
Theorem findBestMatch_is_best usedKalshi pm kalshiMarkets :
  (forall kl sim, findBestMatch usedKalshi pm kalshiMarkets = Some (kl, sim) ->
     In kl kalshiMarkets /\ (Market.id kl ∉ usedKalshi) /\
     sim = calculateSimilarity (Market.title pm) (Market.title kl) /\ 0.3 < sim /\
     forall k, In k kalshiMarkets -> Market.id k ∉ usedKalshi ->
       calculateSimilarity (Market.title pm) (Market.title k) <= sim) /\
  (findBestMatch usedKalshi pm kalshiMarkets = None <->
   forall k, In k kalshiMarkets -> Market.id k ∉ usedKalshi ->
     calculateSimilarity (Market.title pm) (Market.title k) <= 0.3).
Proof.
  split.
  - intros kl sim Hbest.
    destruct (findBestMatch_unused usedKalshi pm kalshiMarkets kl sim Hbest)
      as (Hfree & Hin & Hsim & Hgt).
    repeat split; try assumption.
    intros k Hk Hkfree.
    destruct (Qlt_le_dec 0.3 (calculateSimilarity (Market.title pm) (Market.title k)))
      as [Hbig | Hsmall]; [|lra].
    destruct (findBestMatch_covers usedKalshi pm kalshiMarkets None k Hk Hkfree Hbig)
      as (b' & s' & Hres & Hle).
    unfold findBestMatch in Hbest. rewrite Hbest in Hres. now injection Hres as <- <-.
  - split.
    + intros Hnone k Hk Hkfree.
      destruct (Qlt_le_dec 0.3 (calculateSimilarity (Market.title pm) (Market.title k)))
        as [Hbig | Hsmall]; [|exact Hsmall].
      destruct (findBestMatch_covers usedKalshi pm kalshiMarkets None k Hk Hkfree Hbig)
        as (b' & s' & Hres & _).
      unfold findBestMatch in Hnone. rewrite Hnone in Hres. discriminate.
    + intros Hall. destruct (findBestMatch usedKalshi pm kalshiMarkets) as [[kl sim]|] eqn:E;
        [|reflexivity].
      destruct (findBestMatch_unused usedKalshi pm kalshiMarkets kl sim E)
        as (Hfree & Hin & Hsim & Hgt).
      specialize (Hall kl Hin Hfree). rewrite <- Hsim in Hall. lra.
Qed.

Lemma findBestMatch_is_best_witness :
  In klBitcoin2 [klBitcoin; klBitcoin2] /\
  (Market.id klBitcoin2 ∉ ({[ "kl-1" ]} : gset string)) /\
  (5 # 7) = calculateSimilarity (Market.title pmBitcoin2) (Market.title klBitcoin2) /\
  0.3 < 5 # 7 /\
  forall k, In k [klBitcoin; klBitcoin2] -> Market.id k ∉ ({[ "kl-1" ]} : gset string) ->
    calculateSimilarity (Market.title pmBitcoin2) (Market.title k) <= 5 # 7.
Proof.
  apply (proj1 (findBestMatch_is_best {[ "kl-1" ]} pmBitcoin2 [klBitcoin; klBitcoin2])).
  vm_compute. reflexivity.
Defined.

(** *** The ranking *)

(** X17.  The result of [detectSpreadOpportunities] together with what it
    leaves out is a rearrangement of the three concatenated lists: nothing
    is made up or counted twice; no entry that was left out has a higher
    [spreadPercent] than an entry that was kept; and nothing is left out
    when there are at most 20 opportunities. *)
Theorem detect_keeps_largest now markets :
  exists dropped,
    Permutation (detectSpreadOpportunities now markets ++ dropped)
                (allOpportunities now markets) /\
    (forall kept d, In kept (detectSpreadOpportunities now markets) -> In d dropped ->
       SpreadOpportunity.spreadPercent d <= SpreadOpportunity.spreadPercent kept) /\
    ((length (allOpportunities now markets) <= 20)%nat -> dropped = []).
Proof.
  exists (drop 20 (sort_by bySpreadDesc (allOpportunities now markets))).
  unfold detectSpreadOpportunities. split; [|split].
  - rewrite take_drop. apply sort_by_Permutation.
  - intros kept d Hkept Hd.
    assert (Hs : StronglySorted spread_ge
                   (take 20 (sort_by bySpreadDesc (allOpportunities now markets))
                    ++ drop 20 (sort_by bySpreadDesc (allOpportunities now markets)))).
    { rewrite take_drop. apply Sorted.Sorted_StronglySorted; [|apply ranked_Sorted].
      intros a b c. apply spread_ge_trans. }
    exact (StronglySorted_across _ _ _ kept d Hs Hkept Hd).
  - intros Hlen. apply drop_ge. now rewrite sort_by_length.
Qed.

(** *** Cross-source opportunities *)

Lemma crossLoop_In now index matches o :
  In o (crossLoop now index matches) ->
  exists i mtch, In mtch matches /\ crossOpportunity now i mtch = Some o.
Proof.
  revert index. induction matches as [|mtch rest IH]; intros index Hin; cbn in Hin.
  - destruct Hin.
  - destruct (crossOpportunity now index mtch) as [o'|] eqn:E.
    + destruct Hin as [<- | Hin].
      * exists index, mtch. split; [now left | exact E].
      * destruct (IH _ Hin) as (i & m & Hm & Ho). exists i, m. split; [now right | exact Ho].
    + destruct (IH _ Hin) as (i & m & Hm & Ho). exists i, m. split; [now right | exact Ho].
Qed.

Lemma crossOpportunity_fields now index mtch o :
  crossOpportunity now index mtch = Some o ->
  exists pm kl,
    ms_polymarket mtch = Some pm /\ ms_kalshi mtch = Some kl /\
    SpreadOpportunity.polymarketId o = Some (Market.id pm) /\
    SpreadOpportunity.kalshiId o = Some (Market.id kl) /\
    SpreadOpportunity.polymarketYesPrice o = Some (Market.yesPrice pm) /\
    SpreadOpportunity.kalshiYesPrice o = Some (Market.yesPrice kl) /\
    2 <= Qabs (Market.yesPrice pm - Market.yesPrice kl) * 100 /\
    SpreadOpportunity.spreadDirection o
    = crossDirection (Market.yesPrice pm) (Market.yesPrice kl).
Proof.
  unfold crossOpportunity.
  destruct (ms_polymarket mtch) as [pm|]; [|discriminate].
  destruct (ms_kalshi mtch) as [kl|]; [|discriminate].
  destruct (JsNum.ltb (Qabs (Market.yesPrice pm - Market.yesPrice kl) * 100) 2) eqn:E;
    [discriminate|].
  intros [= <-]. apply JsNum_ltb_ge in E. exists pm, kl. cbn. repeat split; assumption.
Qed.

Lemma crossDirection_spec p k :
  2 <= Qabs (p - k) * 100 ->
  ~ p == k /\
  (crossDirection p k = polymarket_higher <-> k < p) /\
  (crossDirection p k = kalshi_higher <-> p < k).
Proof.
  intros Hgap.
  assert (Hne : ~ p == k).
  { intros E. assert (Hz : Qabs (p - k) == 0).
    { transitivity (Qabs 0); [apply Qabs_wd; lra | reflexivity]. }
    rewrite Hz in Hgap. lra. }
  split; [exact Hne|].
  unfold crossDirection. destruct (JsNum.gtb p k) eqn:E.
  - apply JsNum_gtb_gt in E. split; split; try tauto; try discriminate. intros; lra.
  - apply JsNum_ltb_ge in E. split; split; try discriminate; try tauto.
    + intros; lra.
    + intros _. destruct (Qlt_le_dec p k) as [Hlt | Hle]; [exact Hlt|].
      exfalso. apply Hne. apply Qle_antisym; assumption.
Qed.

(** C9.  Every cross-source opportunity that the detector emits stems from
    a pair of the matcher, two records of the snapshot: it names both and
    carries their two yes prices.  The two prices differ, and
    [spreadDirection] names the side whose yes price is strictly higher.
    Equal prices do not occur among emitted pairs, so that the default for
    ties holds as well. *)
Theorem cross_direction_names_higher_side now markets o :
  In o (crossOpportunities now markets) ->
  exists mtch pm kl,
    In mtch (findMatchingMarkets markets) /\
    ms_polymarket mtch = Some pm /\ ms_kalshi mtch = Some kl /\
    In pm markets /\ In kl markets /\
    SpreadOpportunity.polymarketId o = Some (Market.id pm) /\
    SpreadOpportunity.kalshiId o = Some (Market.id kl) /\
    SpreadOpportunity.polymarketYesPrice o = Some (Market.yesPrice pm) /\
    SpreadOpportunity.kalshiYesPrice o = Some (Market.yesPrice kl) /\
    ~ Market.yesPrice pm == Market.yesPrice kl /\
    (SpreadOpportunity.spreadDirection o = polymarket_higher
     <-> Market.yesPrice kl < Market.yesPrice pm) /\
    (SpreadOpportunity.spreadDirection o = kalshi_higher
     <-> Market.yesPrice pm < Market.yesPrice kl) /\
    (Market.yesPrice pm == Market.yesPrice kl ->
     SpreadOpportunity.spreadDirection o = polymarket_higher).
Proof.
  unfold crossOpportunities. intros Hin. apply sort_by_In in Hin.
  apply crossLoop_In in Hin. destruct Hin as (i & mtch & Hmtch & Ho).
  apply crossOpportunity_fields in Ho.
  destruct Ho as (pm & kl & Hpm & Hkl & Hpid & Hkid & Hpp & Hkp & Hgap & Hdir).
  pose proof (findMatchingMarkets_pair_ok markets) as Hpairs.
  rewrite List.Forall_forall in Hpairs.
  destruct (Hpairs mtch Hmtch) as (pm' & kl' & Hpm' & Hkl' & Hinpm & Hinkl & _).
  assert (pm' = pm) as -> by congruence. assert (kl' = kl) as -> by congruence.
  destruct (crossDirection_spec _ _ Hgap) as (Hne & Hhigher & Hlower).
  exists mtch, pm, kl. rewrite Hdir.
  repeat (split; [assumption|]).
  intros Htie. now destruct Hne.
Qed.

Lemma cross_direction_names_higher_side_witness :
  exists mtch pm kl,
    In mtch (findMatchingMarkets [pmBitcoin; klBitcoin]) /\
    ms_polymarket mtch = Some pm /\ ms_kalshi mtch = Some kl /\
    In pm [pmBitcoin; klBitcoin] /\ In kl [pmBitcoin; klBitcoin] /\
    SpreadOpportunity.polymarketId sampleSpread = Some (Market.id pm) /\
    SpreadOpportunity.kalshiId sampleSpread = Some (Market.id kl) /\
    SpreadOpportunity.polymarketYesPrice sampleSpread = Some (Market.yesPrice pm) /\
    SpreadOpportunity.kalshiYesPrice sampleSpread = Some (Market.yesPrice kl) /\
    ~ Market.yesPrice pm == Market.yesPrice kl /\
    (SpreadOpportunity.spreadDirection sampleSpread = polymarket_higher
     <-> Market.yesPrice kl < Market.yesPrice pm) /\
    (SpreadOpportunity.spreadDirection sampleSpread = kalshi_higher
     <-> Market.yesPrice pm < Market.yesPrice kl) /\
    (Market.yesPrice pm == Market.yesPrice kl ->
     SpreadOpportunity.spreadDirection sampleSpread = polymarket_higher).
Proof.
  apply (cross_direction_names_higher_side sampleNow [pmBitcoin; klBitcoin] sampleSpread).
  vm_compute. left. reflexivity.
Defined.

(** On equal prices the direction expression of the detector yields
    [kalshi_higher]; the pair is dropped before the expression is
    evaluated. *)
Lemma crossDirection_tie :
  length (findMatchingMarkets [tiePm; tieKl]) = 1%nat /\
  Market.yesPrice tiePm == Market.yesPrice tieKl /\
  crossDirection (Market.yesPrice tiePm) (Market.yesPrice tieKl) = kalshi_higher /\
  crossOpportunities sampleNow [tiePm; tieKl] = [].
Proof.
  split; [vm_compute; reflexivity|].
  split; [reflexivity|].
  split; vm_compute; reflexivity.
Qed.

(** *** The scenario of the specification *)











(** *** Internal inconsistencies *)



(** *** What the Polymarket fetches return *)

Lemma fold_directStep_fst data acc :
  fst (fold_left directStep data acc)
  = fst acc ++ List.map directToMarket (List.filter listedDirect data).
Proof.
  revert acc. induction data as [|market data IH]; intros acc; cbn [fold_left List.filter].
  - cbn. now rewrite app_nil_r.
  - rewrite IH. unfold directStep, listedDirect, listed.
    destruct (PolymarketMarketData.active market), (PolymarketMarketData.closed market),
      (PolymarketMarketData.pricesUnreadable market); cbn; try reflexivity.
    now rewrite <- app_assoc.
Qed.

Lemma fold_eventMarketStep_fst event listings acc :
  fst (fold_left (eventMarketStep event) listings acc)
  = fst acc ++ List.map (eventToMarket event) (List.filter listed listings).
Proof.
  revert acc. induction listings as [|market listings IH]; intros acc;
    cbn [fold_left List.filter].
  - cbn. now rewrite app_nil_r.
  - rewrite IH. unfold eventMarketStep, listed.
    destruct (PolymarketMarketData.active market), (PolymarketMarketData.closed market);
      cbn; try reflexivity.
    now rewrite <- app_assoc.
Qed.

Lemma fold_eventStep_fst events acc :
  fst (fold_left eventStep events acc)
  = fst acc
    ++ flat_map (fun event => List.map (eventToMarket event)
                                (List.filter listed (PolymarketEvent.markets event)))
                (List.filter listedEvent events).
Proof.
  revert acc. induction events as [|event events IH]; intros acc;
    cbn [fold_left List.filter].
  - cbn. now rewrite app_nil_r.
  - rewrite IH. unfold eventStep, listedEvent.
    destruct (PolymarketEvent.active event), (PolymarketEvent.closed event);
      cbn [negb orb andb]; try reflexivity.
    rewrite fold_eventMarketStep_fst. cbn [flat_map]. now rewrite <- app_assoc.
Qed.

(** X21.  The direct fetch returns one record for each listing of the
    payload that is active, not closed and has readable prices, in payload
    order; the events fetch returns one record for each active, non-closed
    listing of each active, non-closed event, in payload order; neither
    result depends on what the maps hold.  A failed request returns nothing
    and leaves the maps alone.  Every returned record is a Polymarket record
    with a [pm-] id and prices between 0.01 and 0.99. *)
Theorem polymarket_fetch_results st :
  (forall data,
     fst (fetchPolymarketMarketsDirect (Some data) st)
     = List.map directToMarket (List.filter listedDirect data)) /\
  (forall events,
     fst (fetchAllPolymarketEvents (Some events) st)
     = flat_map (fun event => List.map (eventToMarket event)
                                (List.filter listed (PolymarketEvent.markets event)))
                (List.filter listedEvent events)) /\
  fetchPolymarketMarketsDirect None st = ([], st) /\
  fetchAllPolymarketEvents None st = ([], st) /\
  (forall directPayload eventsPayload m,
     In m (fst (fetchPolymarketMarketsDirect directPayload st))
     \/ In m (fst (fetchAllPolymarketEvents eventsPayload st)) ->
     Market.platform m = polymarket /\ String.prefix "pm-" (Market.id m) = true /\
     clamped m).
Proof.
  assert (Hd : forall data,
            fst (fetchPolymarketMarketsDirect (Some data) st)
            = List.map directToMarket (List.filter listedDirect data)).
  { intros data. cbn. unfold ingestDirect. now rewrite fold_directStep_fst. }
  assert (He : forall events,
            fst (fetchAllPolymarketEvents (Some events) st)
            = flat_map (fun event => List.map (eventToMarket event)
                                       (List.filter listed (PolymarketEvent.markets event)))
                       (List.filter listedEvent events)).
  { intros events. cbn. unfold ingestEvents. now rewrite fold_eventStep_fst. }
  split; [exact Hd|]. split; [exact He|]. split; [reflexivity|]. split; [reflexivity|].
  intros directPayload eventsPayload m [Hm | Hm].
  - destruct directPayload as [data|]; [|destruct Hm].
    rewrite Hd in Hm. apply in_map_iff in Hm as (listing & <- & _).
    split; [reflexivity|]. split; [apply prefix_pm | apply polymarketToMarket_clamped].
  - destruct eventsPayload as [events|]; [|destruct Hm].
    rewrite He in Hm. apply in_flat_map in Hm as (event & _ & Hm).
    apply in_map_iff in Hm as (listing & <- & _).
    split; [reflexivity|]. split; [apply prefix_pm | apply polymarketToMarket_clamped].
Qed.

Lemma polymarket_fetch_results_witness :
  Market.platform (directToMarket sampleListing) = polymarket /\
  String.prefix "pm-" (Market.id (directToMarket sampleListing)) = true /\
  clamped (directToMarket sampleListing).
Proof.
  apply (proj2 (proj2 (proj2 (proj2 (polymarket_fetch_results (feedCache initialFeedState)))))
           (Some [sampleListing]) None).
  left. vm_compute. left. reflexivity.
Defined.

(** *** Categories *)

Lemma list_ascii_of_string_app (a b : string) :
  list_ascii_of_string (a ++ b) = list_ascii_of_string a ++ list_ascii_of_string b.
Proof.
  induction a as [|c a IH]; [reflexivity|].
  change (c :: list_ascii_of_string (a ++ b)
          = c :: (list_ascii_of_string a ++ list_ascii_of_string b)).
  now rewrite IH.
Qed.

Lemma string_of_list_ascii_app (a b : list ascii) :
  string_of_list_ascii (a ++ b)
  = (string_of_list_ascii a ++ string_of_list_ascii b)%string.
Proof.
  induction a as [|c a IH]; [reflexivity|].
  change (String c (string_of_list_ascii (a ++ b))
          = String c (string_of_list_ascii a ++ string_of_list_ascii b)%string).
  now rewrite IH.
Qed.

Lemma lower_app (a b : string) :
  JsStr.lower (a ++ b) = (JsStr.lower a ++ JsStr.lower b)%string.
Proof.
  unfold JsStr.lower, JsStr.toLowerCase.
  now rewrite list_ascii_of_string_app, List.map_app, string_of_list_ascii_app.
Qed.

Lemma append_cons c (a b : string) : (String c a ++ b)%string = String c (a ++ b).
Proof. reflexivity. Qed.

Lemma append_nil (b : string) : ("" ++ b)%string = b.
Proof. reflexivity. Qed.

Lemma prefix_app (k a b : string) :
  String.prefix k a = true -> String.prefix k (a ++ b) = true.
Proof.
  revert a. induction k as [|c k IH]; intros a.
  - intros _. now destruct (a ++ b)%string.
  - destruct a as [|c' a]; [discriminate|].
    rewrite append_cons. cbn [String.prefix].
    destruct (ascii_dec c c'); [apply IH | discriminate].
Qed.

Lemma includes_app_l (a b k : string) :
  JsStr.includes a k = true -> JsStr.includes (a ++ b) k = true.
Proof.
  induction a as [|c a IH]; intros H.
  - cbn [JsStr.includes] in H. rewrite orb_false_r in H.
    destruct k; [|discriminate H]. rewrite append_nil. now destruct b.
  - cbn [JsStr.includes] in H. apply orb_true_iff in H as [H | H].
    + apply (prefix_app k (String c a) b) in H.
      rewrite append_cons in *. cbn [JsStr.includes]. now rewrite H.
    + rewrite append_cons. cbn [JsStr.includes]. rewrite (IH H). apply orb_true_r.
Qed.

Lemma includes_app_r (a b k : string) :
  JsStr.includes b k = true -> JsStr.includes (a ++ b) k = true.
Proof.
  intros H. induction a as [|c a IH]; [exact H|].
  rewrite append_cons. cbn [JsStr.includes]. rewrite IH. apply orb_true_r.
Qed.

Lemma mapCategory_crypto title description k :
  In k cryptoKeywords ->
  JsStr.includes (JsStr.lower (title ++ " " ++ description)) k = true ->
  mapCategory title description = crypto.
Proof.
  intros Hk Hinc. unfold mapCategory.
  set (text := JsStr.lower (title ++ " " ++ description)) in *.
  unfold cryptoKeywords in Hk. cbn in Hk.
  destruct Hk as [<- | [<- | [<- | [<- | [<- | [<- | []]]]]]]; rewrite Hinc;
    rewrite ?orb_true_r; reflexivity.
Qed.

(** X22.  The Polymarket classifier ignores letter case: two titles and two
    descriptions that agree up to case get the same category.  The crypto
    rule comes first: a title or a description that contains one of its six
    keywords, in any case and also inside a longer word, is classified as
    crypto, whatever else the text mentions. *)
Theorem category_rules title description :
  (forall title' description',
     JsStr.lower title = JsStr.lower title' ->
     JsStr.lower description = JsStr.lower description' ->
     mapCategory title description = mapCategory title' description') /\
  (forall k, In k cryptoKeywords ->
     JsStr.includes (JsStr.lower title) k = true
     \/ JsStr.includes (JsStr.lower description) k = true ->
     mapCategory title description = crypto).
Proof.
  split.
  - intros title' description' Ht Hd. unfold mapCategory.
    now rewrite !lower_app, Ht, Hd.
  - intros k Hk Hinc. apply (mapCategory_crypto title description k Hk).
    rewrite !lower_app. destruct Hinc as [Hinc | Hinc].
    + now apply includes_app_l.
    + now apply includes_app_r, includes_app_r.
Qed.

Lemma category_rules_witness :
  mapCategory "Will BITCOIN decide the election?" "Politics"
  = mapCategory "will bitcoin decide the Election?" "POLITICS" /\
  mapCategory "Will BITCOIN decide the election?" "Politics" = crypto.
Proof.
  split.
  - apply (proj1 (category_rules "Will BITCOIN decide the election?" "Politics")).
    + reflexivity.
    + reflexivity.
  - apply (proj2 (category_rules "Will BITCOIN decide the election?" "Politics") "bitcoin").
    + left. reflexivity.
    + left. vm_compute. reflexivity.
Defined.

(** *** Normalized titles *)

Lemma ascii_facts c :
  implb (normal_char c) (Ascii.eqb (JsStr.lower_char c) c) = true /\
  implb (normal_char c && JsStr.is_space c) (Ascii.eqb c " "%char) = true /\
  implb (JsStr.is_space c) (negb (JsStr.is_lower c || JsStr.is_digit c)) = true /\
  implb (normal_char c) (JsStr.is_lower c || JsStr.is_digit c || JsStr.is_space c) = true.
Proof.
  destruct c as [b0 b1 b2 b3 b4 b5 b6 b7].
  destruct b0, b1, b2, b3, b4, b5, b6, b7; vm_compute; auto.
Qed.

Lemma normal_lower c : normal_char c = true -> JsStr.lower_char c = c.
Proof.
  intros H. destruct (ascii_facts c) as (H1 & _). rewrite H in H1. now apply Ascii.eqb_eq.
Qed.

Lemma normal_space c : normal_char c = true -> JsStr.is_space c = true -> c = " "%char.
Proof.
  intros H Hs. destruct (ascii_facts c) as (_ & H2 & _). rewrite H, Hs in H2.
  now apply Ascii.eqb_eq.
Qed.

Lemma normal_kept c :
  normal_char c = true -> JsStr.is_lower c || JsStr.is_digit c || JsStr.is_space c = true.
Proof. intros H. destruct (ascii_facts c) as (_ & _ & _ & H4). now rewrite H in H4. Qed.

Lemma collapse_spaces_cons c rest :
  JsStr.collapse_spaces (c :: rest)
  = if JsStr.is_space c then
      match rest with
      | c' :: _ => if JsStr.is_space c' then JsStr.collapse_spaces rest
                   else " "%char :: JsStr.collapse_spaces rest
      | [] => [" "%char]
      end
    else c :: JsStr.collapse_spaces rest.
Proof. reflexivity. Qed.

Lemma collapse_normal s :
  Forall (fun c => JsStr.is_lower c || JsStr.is_digit c || JsStr.is_space c = true) s ->
  Forall (fun c => normal_char c = true) (JsStr.collapse_spaces s).
Proof.
  induction 1 as [|c rest Hc Hrest IH]; [constructor|].
  rewrite collapse_spaces_cons. destruct (JsStr.is_space c) eqn:Es.
  - destruct rest as [|c' rest']; [repeat constructor|].
    destruct (JsStr.is_space c'); [exact IH | now constructor].
  - constructor; [|exact IH].
    unfold normal_char. rewrite orb_false_r in Hc. now rewrite Hc.
Qed.

Lemma collapse_head c rest :
  JsStr.is_space c = false ->
  exists tail, JsStr.collapse_spaces (c :: rest) = c :: tail.
Proof. intros Hs. rewrite collapse_spaces_cons, Hs. eauto. Qed.

Lemma collapse_no_double s : no_double_space (JsStr.collapse_spaces s).
Proof.
  induction s as [|c rest IH]; [exact I|].
  rewrite collapse_spaces_cons. destruct (JsStr.is_space c) eqn:Es.
  - destruct rest as [|c' rest']; [exact I|].
    destruct (JsStr.is_space c') eqn:Es'; [exact IH|].
    destruct (collapse_head c' rest' Es') as [tail Htail]. rewrite Htail in *.
    cbn. split; [intros _; exact Es' | exact IH].
  - destruct (JsStr.collapse_spaces rest) as [|c' tail] eqn:E; [exact I|].
    cbn. split; [rewrite Es; discriminate | exact IH].
Qed.

Lemma no_double_adjacent s : no_double_space s <-> no_adjacent_spaces s.
Proof.
  split.
  - intros Hs pre. revert s Hs. induction pre as [|x pre IH]; intros s Hs c c' post ->.
    + cbn in Hs. destruct Hs as [Hs _]. intros [H1 H2]. rewrite (Hs H1) in H2. discriminate.
    + cbn in Hs. destruct (pre ++ c :: c' :: post) as [|y tail] eqn:E.
      * now destruct pre.
      * destruct Hs as [_ Hs]. rewrite <- E in Hs. now apply (IH _ Hs c c' post).
  - induction s as [|c rest IH]; intros Hs; [exact I|].
    destruct rest as [|c' rest']; [exact I|].
    cbn. split.
    + intros H1. destruct (JsStr.is_space c') eqn:E; [|reflexivity].
      exfalso. apply (Hs [] c c' rest' eq_refl). now split.
    + apply IH. intros pre x x' post Heq. apply (Hs (c :: pre) x x' post).
      cbn. now rewrite Heq.
Qed.

Lemma drop_spaces_suffix s :
  exists dropped, s = dropped ++ JsStr.drop_spaces s /\
                  Forall (fun c => JsStr.is_space c = true) dropped.
Proof.
  induction s as [|c rest (dropped & Heq & Hall)]; [exists []; now split|].
  cbn. destruct (JsStr.is_space c) eqn:Es.
  - exists (c :: dropped). split; [cbn; now rewrite <- Heq | now constructor].
  - exists []. now split.
Qed.

Lemma drop_spaces_head s c rest :
  JsStr.drop_spaces s = c :: rest -> JsStr.is_space c = false.
Proof.
  induction s as [|x s IH]; cbn; [discriminate|].
  destruct (JsStr.is_space x) eqn:Es; [exact IH|]. intros [= <- _]. exact Es.
Qed.

Lemma drop_spaces_clean s :
  (forall c rest, s = c :: rest -> JsStr.is_space c = false) -> JsStr.drop_spaces s = s.
Proof.
  destruct s as [|c rest]; [reflexivity|]. intros H. cbn. now rewrite (H c rest eq_refl).
Qed.

Lemma no_adjacent_suffix pre s : no_adjacent_spaces (pre ++ s) -> no_adjacent_spaces s.
Proof.
  intros H p c c' post ->. apply (H (pre ++ p) c c' post). now rewrite <- app_assoc.
Qed.

Lemma no_adjacent_rev s : no_adjacent_spaces s -> no_adjacent_spaces (rev s).
Proof.
  intros H pre c c' post Heq.
  assert (Hs : s = rev post ++ c' :: c :: rev pre).
  { rewrite <- (rev_involutive s), Heq, rev_app_distr. cbn.
    now rewrite <- !app_assoc. }
  intros [H1 H2]. now apply (H _ _ _ _ Hs).
Qed.

Lemma trim_normalized s :
  Forall (fun c => normal_char c = true) s -> no_adjacent_spaces s ->
  normalized (JsStr.trim s).
Proof.
  intros Hall Hadj. unfold JsStr.trim.
  destruct (drop_spaces_suffix s) as (d1 & Hs1 & _).
  set (y := JsStr.drop_spaces s) in *.
  destruct (drop_spaces_suffix (rev y)) as (d2 & Hs2 & _).
  set (z := JsStr.drop_spaces (rev y)) in *.
  assert (Hy : y = rev z ++ rev d2).
  { rewrite <- (rev_involutive y), Hs2, rev_app_distr. reflexivity. }
  split; [|split; [|split]].
  - apply Forall_rev. rewrite Hs1 in Hall. apply Forall_app in Hall as [_ Hall].
    apply Forall_rev in Hall. rewrite Hs2 in Hall. now apply Forall_app in Hall as [_ Hall].
  - apply no_adjacent_rev. apply (no_adjacent_suffix d2). rewrite <- Hs2.
    apply no_adjacent_rev. apply (no_adjacent_suffix d1). now rewrite <- Hs1.
  - intros c rest Hrev. rewrite Hrev in Hy. cbn in Hy.
    now apply (drop_spaces_head s c ((rest ++ rev d2))).
  - intros init c Hrev.
    assert (Hz : z = c :: rev init).
    { rewrite <- (rev_involutive z), Hrev, rev_app_distr. reflexivity. }
    now apply (drop_spaces_head (rev y) c (rev init)).
Qed.

Lemma normalizeChars_normalized s : normalized (normalizeChars s).
Proof.
  unfold normalizeChars. apply trim_normalized.
  - apply collapse_normal. apply List.Forall_forall. intros c Hc.
    now apply filter_In in Hc.
  - apply no_double_adjacent, collapse_no_double.
Qed.

Lemma collapse_clean s :
  Forall (fun c => normal_char c = true) s -> no_double_space s ->
  JsStr.collapse_spaces s = s.
Proof.
  induction 1 as [|c rest Hc Hrest IH]; [reflexivity|]. intros Hnd.
  rewrite collapse_spaces_cons.
  assert (Hrest' : no_double_space rest).
  { destruct rest as [|c' rest']; [exact I | now destruct Hnd]. }
  rewrite (IH Hrest').
  destruct (JsStr.is_space c) eqn:Es; [|reflexivity].
  rewrite (normal_space c Hc Es).
  destruct rest as [|c' rest']; [reflexivity|].
  destruct Hnd as [Hnd _]. now rewrite (Hnd Es).
Qed.

Lemma toLowerCase_fixed s :
  Forall (fun c => normal_char c = true) s -> JsStr.toLowerCase s = s.
Proof.
  unfold JsStr.toLowerCase. induction 1 as [|c rest Hc Hrest IH]; [reflexivity|].
  cbn. now rewrite (normal_lower c Hc), IH.
Qed.

Lemma trim_fixed s :
  (forall c rest, s = c :: rest -> JsStr.is_space c = false) ->
  (forall init c, s = init ++ [c] -> JsStr.is_space c = false) ->
  JsStr.trim s = s.
Proof.
  intros Hhead Hlast. unfold JsStr.trim. rewrite (drop_spaces_clean s Hhead).
  rewrite drop_spaces_clean; [apply rev_involutive|].
  intros c rest Hrev. apply (Hlast (rev rest) c).
  rewrite <- (rev_involutive s), Hrev. reflexivity.
Qed.

Lemma normalizeChars_fixed s : normalized s -> normalizeChars s = s.
Proof.
  intros (Hall & Hadj & Hhead & Hlast). unfold normalizeChars.
  rewrite (toLowerCase_fixed s Hall).
  assert (Hstrip : JsStr.strip_other s = s).
  { unfold JsStr.strip_other. apply filter_all.
    eapply List.Forall_impl; [|exact Hall]. intros c Hc. now apply normal_kept. }
  rewrite Hstrip, (collapse_clean s Hall) by now apply no_double_adjacent.
  now apply trim_fixed.
Qed.

(** X23.  A normalized title consists of lower-case letters, digits and
    blanks only, has no blank at either end and no two blanks in a row; and
    normalizing it again changes nothing, so that the similarity of two
    titles is that of their normalized forms. *)
Theorem normalizeTitle_shape title :
  normalized (list_ascii_of_string (normalizeTitle title)) /\
  normalizeTitle (normalizeTitle title) = normalizeTitle title /\
  forall other,
    calculateSimilarity (normalizeTitle title) (normalizeTitle other)
    = calculateSimilarity title other.
Proof.
  assert (Hn : forall t, list_ascii_of_string (normalizeTitle t)
                         = normalizeChars (list_ascii_of_string t)).
  { intros t. unfold normalizeTitle. now rewrite list_ascii_of_string_of_list_ascii. }
  assert (Hidem : forall t, normalizeTitle (normalizeTitle t) = normalizeTitle t).
  { intros t.
    transitivity (string_of_list_ascii
                    (normalizeChars (list_ascii_of_string (normalizeTitle t))));
      [reflexivity|].
    rewrite Hn, normalizeChars_fixed by apply normalizeChars_normalized. reflexivity. }
  split; [rewrite Hn; apply normalizeChars_normalized|].
  split; [apply Hidem|].
  intros other. unfold calculateSimilarity. now rewrite !Hidem.
Qed.

(** *** A feed that has given up *)

Lemma feedOp_dead st op :
  feed_dead (feedConn st) -> ~ op_is_open op -> feedConn (feedOp st op) = feedConn st.
Proof.
  intros (Hws & Hcap & Htimers) Hop. destruct op as [now e d b | message | ev]; cbn.
  - unfold getPolymarketMarkets. destruct (refreshDue now st); [|reflexivity].
    destruct (fetchBoth e d b (feedCache st)) as [[em dm] fetched]. cbn.
    rewrite Hws. now destruct (negb _).
  - reflexivity.
  - destruct ev; cbn.
    + now rewrite Hws.
    + now destruct Hop.
    + unfold onClose. rewrite scheduleReconnect_at_cap by exact Hcap.
      destruct (feedConn st) as [ws n ts]. cbn in *. now rewrite Hws.
    + reflexivity.
    + now rewrite Htimers.
Qed.

(** X24.  Once the fifth reconnect has failed (last socket closed, counter
    at 5, no timer pending) the live feed stays down: no refresh, trade
    message, close, error or timer event changes the connection state, and
    [getPolymarketMarkets] in particular does not connect again, because
    [wsConnection] still holds the closed socket.  (As no socket is
    connecting, no open event can arrive.) *)
Theorem dead_feed_stays_dead st ops :
  feed_dead (feedConn st) ->
  Forall (fun op => ~ op_is_open op) ops ->
  feedConn (feedOps st ops) = feedConn st.
Proof.
  intros Hdead Hops. revert st Hdead.
  induction Hops as [|op ops Hop Hrest IH]; intros st Hdead; [reflexivity|].
  cbn [feedOps fold_left]. fold (feedOps (feedOp st op) ops).
  assert (Hsame : feedConn (feedOp st op) = feedConn st) by now apply feedOp_dead.
  rewrite IH; [exact Hsame | now rewrite Hsame].
Qed.

Lemma dead_feed_stays_dead_witness :
  feedConn (feedOps {| feedCache := sampleCache; feedConn := givenUp; lastFullRefresh := 0 |}
              [OpRefresh 100000 (Some [sampleEvent]) None false; OpEvent EvTimer;
               OpMessage acceptedTrade; OpEvent EvClose])
  = givenUp.
Proof.
  apply (dead_feed_stays_dead
           {| feedCache := sampleCache; feedConn := givenUp; lastFullRefresh := 0 |}).
  - vm_compute. repeat split; lia.
  - repeat constructor; intros [].
Defined.

(** *** Ties in the ranking *)

Lemma insert_by_ties (v : Q) x l :
  List.filter (fun o => Qeq_bool (SpreadOpportunity.spreadPercent o) v)
              (insert_by bySpreadDesc x l)
  = List.filter (fun o => Qeq_bool (SpreadOpportunity.spreadPercent o) v) (x :: l).
Proof.
  induction l as [|y l IH]; [reflexivity|].
  cbn [insert_by]. destruct (Qle_bool (bySpreadDesc x y)) eqn:E; [reflexivity|].
  cbn [List.filter] in *. rewrite IH.
  destruct (Qeq_bool (SpreadOpportunity.spreadPercent x) v) eqn:Ex; [|reflexivity].
  destruct (Qeq_bool (SpreadOpportunity.spreadPercent y) v) eqn:Ey; [|reflexivity].
  exfalso. apply Qeq_bool_iff in Ex, Ey.
  assert (Hn : ~ bySpreadDesc x y <= 0) by (rewrite <- Qle_bool_iff, E; discriminate).
  unfold bySpreadDesc in Hn. lra.
Qed.

Lemma sort_by_ties (v : Q) l :
  List.filter (fun o => Qeq_bool (SpreadOpportunity.spreadPercent o) v)
              (sort_by bySpreadDesc l)
  = List.filter (fun o => Qeq_bool (SpreadOpportunity.spreadPercent o) v) l.
Proof.
  induction l as [|x l IH]; [reflexivity|].
  change (sort_by bySpreadDesc (x :: l)) with (insert_by bySpreadDesc x (sort_by bySpreadDesc l)).
  rewrite insert_by_ties. cbn [List.filter]. now rewrite IH.
Qed.

(** X25.  Ranking keeps entries of equal [spreadPercent] in the order of
    the concatenation: among the ranked opportunities with a given
    [spreadPercent], the demo entries come first, then the cross-source
    ones, then the single-platform ones, each group in its own order.  A
    demo entry therefore outranks every detected entry of the same
    spread. *)
Theorem ranking_ties_keep_order now markets (v : Q) :
  let tied := List.filter (fun o => Qeq_bool (SpreadOpportunity.spreadPercent o) v) in
  tied (sort_by bySpreadDesc (allOpportunities now markets))
  = tied (mockSpreads now) ++ tied (crossLoop now 0 (findMatchingMarkets markets))
    ++ tied (singlePlatformSpreads now markets).
Proof.
  cbv zeta. rewrite sort_by_ties. unfold allOpportunities, crossOpportunities.
  now rewrite !List.filter_app, sort_by_ties.
Qed.
